(** * epub_to_audiobook: the EPUB book parser

    A shallow embedding of
    [audiobook_generator/book_parsers/epub_book_parser.py] and the
    properties of its chapter extraction pipeline.

    Python [str] values are lists of Unicode code points.  The three library
    layers the parser stands on are modelled first: the [str] methods it
    calls ([PyStr]), the regular expressions it uses ([Re]) and the
    BeautifulSoup tree ([Soup]); the parser itself is [EpubBookParser]. *)

From Stdlib Require Import Ascii String List NArith Bool Arith Lia.
Import ListNotations.

Set Implicit Arguments.
Set Warnings "-register-all".

(** ** Python strings *)

Module PyStr.

Definition char := N.
Definition str := list char.

(** An ASCII literal as a Python string. *)
Fixpoint lit (s : string) : str :=
  match s with
  | EmptyString => []
  | String a s' => N_of_ascii a :: lit s'
  end.

Definition NL : char := 10%N.
Definition SP : char := 32%N.
Definition DQUOTE : char := 34%N.
Definition BACKSLASH : char := 92%N.
Definition UNDERSCORE : char := 95%N.

Definition in_range (lo hi c : char) : bool := ((lo <=? c) && (c <=? hi))%N.

Fixpoint str_eqb (a b : str) : bool :=
  match a, b with
  | [], [] => true
  | x :: a', y :: b' => (x =? y)%N && str_eqb a' b'
  | _, _ => false
  end.

(** [s.startswith(p)] *)
Fixpoint startswith (s p : str) : bool :=
  match p, s with
  | [], _ => true
  | a :: p', b :: s' => (a =? b)%N && startswith s' p'
  | _ :: _, [] => false
  end.

(** [p in s] *)
Fixpoint contains (s p : str) : bool :=
  startswith s p ||
  match s with
  | [] => false
  | _ :: s' => contains s' p
  end.

(** [str.isspace] on one character; it is also the class [\s] of a [str]
    pattern. *)
Definition isspace (c : char) : bool :=
  (in_range 9 13 c || in_range 28 32 c || (c =? 133) || (c =? 160)
   || (c =? 5760) || in_range 8192 8202 c || in_range 8232 8233 c
   || (c =? 8239) || (c =? 8287) || (c =? 12288))%N.

Fixpoint lstrip (s : str) : str :=
  match s with
  | [] => []
  | c :: s' => if isspace c then lstrip s' else s
  end.

Definition rstrip (s : str) : str := rev (lstrip (rev s)).

(** [s.strip()] *)
Definition strip (s : str) : str := rstrip (lstrip s).

(** The scan of [s.replace(old, new)] for a non-empty [old]: occurrences are
    taken leftmost first and do not overlap; [skip] counts the characters of
    the current occurrence still to be passed over. *)
Fixpoint replace_from (old new : str) (skip : nat) (s : str) : str :=
  match s with
  | [] => []
  | c :: s' =>
      match skip with
      | S k => replace_from old new k s'
      | O =>
          if startswith s old
          then new ++ replace_from old new (pred (length old)) s'
          else c :: replace_from old new O s'
      end
  end.

(** [s.replace(old, new)]; an empty [old] matches before every character and
    at the end. *)
Definition replace (s old new : str) : str :=
  match old with
  | [] => new ++ flat_map (fun c => c :: new) s
  | _ :: _ => replace_from old new 0 s
  end.

(** [s[:n]] for a non-negative [n]. *)
Definition slice_to (n : nat) (s : str) : str := firstn n s.

End PyStr.

(** ** Regular expressions

    The patterns of the parser are character classes, greedy repetitions of a
    class and a one-character look-behind in front of those; none of them
    can match the empty string. *)

Module Re.
Import PyStr.

Inductive regex : Type :=
| Class (p : char -> bool)                  (* [...] *)
| Many (k : nat) (p : char -> bool)         (* [...]{k+1,}; [...]+ is k = 0 *)
| Lookbehind (p : char -> bool) (r : regex) (* (?<=[...])r *).

(** Length of the longest prefix of [s] made of [p] characters. *)
Fixpoint span (p : char -> bool) (s : str) : nat :=
  match s with
  | [] => 0
  | c :: s' => if p c then S (span p s') else 0
  end.

(** Length of the match of [r] starting at the head of [s], where [prev] is
    the character just before it. *)
Fixpoint match_at (r : regex) (prev : option char) (s : str) : option nat :=
  match r with
  | Class p =>
      match s with
      | c :: _ => if p c then Some 1 else None
      | [] => None
      end
  | Many k p => let n := span p s in if k <? n then Some n else None
  | Lookbehind p r' =>
      match prev with
      | Some c => if p c then match_at r' prev s else None
      | None => None
      end
  end.

(** [re.search(r, s)] as a truth value. *)
Fixpoint search_from (r : regex) (prev : option char) (s : str) : bool :=
  match match_at r prev s with
  | Some _ => true
  | None =>
      match s with
      | [] => false
      | c :: s' => search_from r (Some c) s'
      end
  end.

Definition search (r : regex) (s : str) : bool := search_from r None s.

(** The scan of [re.sub]: matches are taken leftmost first; [repl] gets the
    matched text. *)
Fixpoint sub_from (r : regex) (repl : str -> str) (prev : option char)
         (skip : nat) (s : str) : str :=
  match s with
  | [] => []
  | c :: s' =>
      match skip with
      | S k => sub_from r repl (Some c) k s'
      | O =>
          match match_at r prev s with
          | Some (S n) => repl (firstn (S n) s) ++ sub_from r repl (Some c) n s'
          | _ => c :: sub_from r repl (Some c) O s'
          end
      end
  end.

Definition sub_with (r : regex) (repl : str -> str) (s : str) : str :=
  sub_from r repl None 0 s.

(** The scan of [re.split] for a pattern without groups: [cur] is the
    current piece, reversed. *)
Fixpoint split_from (r : regex) (prev : option char) (skip : nat)
         (cur : str) (s : str) : list str :=
  match s with
  | [] => [rev cur]
  | c :: s' =>
      match skip with
      | S k => split_from r (Some c) k cur s'
      | O =>
          match match_at r prev s with
          | Some (S n) => rev cur :: split_from r (Some c) n [] s'
          | _ => split_from r (Some c) O (c :: cur) s'
          end
      end
  end.

Definition split (r : regex) (s : str) : list str := split_from r None 0 [] s.

(** *** Replacement templates

    A [str] given to [re.sub] as the replacement is a template: its
    backslash escapes are processed before any match is looked for
    ([parse_template] of CPython since 3.7, for a pattern without groups). *)

Inductive titem : Type :=
| Literal (s : str)
| Group0.

Definition is_octdigit (c : char) : bool := (in_range 48 55 c)%N.
Definition is_asciidigit (c : char) : bool := (in_range 48 57 c)%N.
Definition is_asciiletter (c : char) : bool :=
  (in_range 65 90 c || in_range 97 122 c)%N.

Definition oct (c : char) : N := (c - 48)%N.

(** The table [ESCAPES] of the template parser. *)
Definition escape (c : char) : option char :=
  if (c =? 97)%N then Some 7%N          (* \a *)
  else if (c =? 98)%N then Some 8%N     (* \b *)
  else if (c =? 102)%N then Some 12%N   (* \f *)
  else if (c =? 110)%N then Some 10%N   (* \n *)
  else if (c =? 114)%N then Some 13%N   (* \r *)
  else if (c =? 116)%N then Some 9%N    (* \t *)
  else if (c =? 118)%N then Some 11%N   (* \v *)
  else if (c =? 92)%N then Some 92%N    (* \\ *)
  else None.

(** The group name of [\g<name>]: the tokens up to [>] and what follows.  A
    backslash and the character after it are one token, so a [>] behind a
    backslash does not end the name. *)
Fixpoint getuntil_gt (s : str) : option (str * str) :=
  match s with
  | [] => None
  | c :: s' =>
      if (c =? 62)%N then Some ([], s')
      else if (c =? BACKSLASH)%N then
        match s' with
        | [] => None
        | e :: s'' =>
            match getuntil_gt s'' with
            | Some (name, rest) => Some (c :: e :: name, rest)
            | None => None
            end
        end
      else
        match getuntil_gt s' with
        | Some (name, rest) => Some (c :: name, rest)
        | None => None
        end
  end.

(** With no group in the pattern the only group a template may name is 0.
    Which spellings of a name stand for 0 is the interpreter's matter and
    differs between its versions: the name goes through [int], CPython 3.11
    takes [+0], [ 0] and [0_0] where 3.12 takes ASCII digits only, and both
    refuse a name longer than the digit limit of [int].  It is left
    open. *)
Class TemplateSyntax : Type := {
  names_group0 : str -> bool
}.

Section Templates.
Context {T : TemplateSyntax}.

Fixpoint parse_template_fuel (fuel : nat) (s : str) : option (list titem) :=
  match fuel with
  | O => match s with [] => Some [] | _ => None end
  | S fuel' =>
      let continue (it : titem) (rest : str) :=
        match parse_template_fuel fuel' rest with
        | Some items => Some (it :: items)
        | None => None
        end in
      match s with
      | [] => Some []
      | c :: rest =>
          if negb (c =? BACKSLASH)%N then continue (Literal [c]) rest
          else
            match rest with
            | [] => None                                 (* bad escape (end of pattern) *)
            | e :: rest1 =>
                if (e =? 103)%N then                     (* \g<name> *)
                  match rest1 with
                  | lt :: rest2 =>
                      if (lt =? 60)%N then
                        match getuntil_gt rest2 with
                        | Some ([], _) => None           (* missing group name *)
                        | Some (name, rest3) =>
                            if names_group0 name then continue Group0 rest3
                            else None
                        | None => None
                        end
                      else None
                  | [] => None
                  end
                else if (e =? 48)%N then                 (* \0, \0o, \0oo *)
                  match rest1 with
                  | d1 :: rest2 =>
                      if is_octdigit d1 then
                        match rest2 with
                        | d2 :: rest3 =>
                            if is_octdigit d2
                            then continue (Literal [((oct d1 * 8 + oct d2) mod 256)%N]) rest3
                            else continue (Literal [oct d1]) rest2
                        | [] => continue (Literal [oct d1]) rest2
                        end
                      else continue (Literal [0%N]) rest1
                  | [] => continue (Literal [0%N]) rest1
                  end
                else if is_asciidigit e then             (* \ooo or a group number *)
                  match rest1 with
                  | d1 :: d2 :: rest3 =>
                      if is_octdigit e && is_octdigit d1 && is_octdigit d2 then
                        let v := (oct e * 64 + oct d1 * 8 + oct d2)%N in
                        if (255 <? v)%N then None
                        else continue (Literal [v]) rest3
                      else None                          (* invalid group reference *)
                  | _ => None
                  end
                else
                  match escape e with
                  | Some v => continue (Literal [v]) rest1
                  | None =>
                      if is_asciiletter e then None      (* bad escape *)
                      else continue (Literal [c; e]) rest1
                  end
            end
      end
  end.

Definition parse_template (s : str) : option (list titem) :=
  parse_template_fuel (length s) s.

Definition expand (items : list titem) (matched : str) : str :=
  flat_map (fun it => match it with Literal l => l | Group0 => matched end) items.

(** [re.sub(r, repl, s)] with a [str] replacement; [None] when the template
    is refused. *)
Definition sub (r : regex) (repl : str) (s : str) : option str :=
  match parse_template repl with
  | Some items => Some (sub_with r (expand items) s)
  | None => None
  end.

End Templates.

End Re.

(** ** The BeautifulSoup tree

    A document item reaches the parser as the tree that
    [BeautifulSoup(content, "lxml")] builds from its markup. *)

Module Soup.
Import PyStr.

Inductive node : Type :=
| NavigableString (s : str)
| SpecialString (s : str)   (* Comment, Doctype, Declaration, ...: no text *)
| Tag (name : string) (attrs : list (string * str)) (contents : list node).

(** The contents of the [BeautifulSoup] object, whose own name is
    [[document]]. *)
Definition soup := list node.

Definition has_attr (key : string) (attrs : list (string * str)) : bool :=
  existsb (fun kv => String.eqb (fst kv) key) attrs.

(** Every node below (and including) [n], in document order. *)
Fixpoint descendants (n : node) : list node :=
  n :: match n with
       | Tag _ _ kids => flat_map descendants kids
       | _ => []
       end.

Definition is_tag_named (name : string) (n : node) : bool :=
  match n with
  | Tag nm _ _ => String.eqb nm name
  | _ => false
  end.

(** [soup.find(name)] *)
Definition find (name : string) (s : soup) : option node :=
  List.find (is_tag_named name) (flat_map descendants s).

(** [get_text()] of a node: its strings, in document order, joined. *)
Fixpoint get_text (n : node) : str :=
  match n with
  | NavigableString s => s
  | SpecialString _ => []
  | Tag _ _ kids => flat_map get_text kids
  end.

Definition soup_text (s : soup) : str := flat_map get_text s.

(** [for tag in soup.find_all(...): tag.decompose()] for the tags selected
    by [sel]: each goes with everything below it. *)
Fixpoint decompose_in (sel : string -> list (string * str) -> bool)
         (n : node) : list node :=
  match n with
  | Tag name attrs kids =>
      if sel name attrs then []
      else [Tag name attrs (flat_map (decompose_in sel) kids)]
  | _ => [n]
  end.

Definition decompose_all (sel : string -> list (string * str) -> bool)
           (s : soup) : soup :=
  flat_map (decompose_in sel) s.

(** What lxml's HTML parser makes of body-level markup: it supplies the
    [html] and [body] elements. *)
Definition lxml_document (body : list node) : soup :=
  [Tag "html" [] [Tag "body" [] body]].

End Soup.

(** ** The parser *)

Module EpubBookParser.
Import PyStr Re Soup.

(** The settings that [get_chapters] reads. *)
Record GeneralConfig : Type := {
  newline_mode : str;
  remove_endnotes : bool;
  language : str
}.

Inductive exn : Type :=
| ValueError (msg : str)
| bad_template   (* what re.sub raises for a replacement it refuses *).

Inductive result (A : Type) : Type :=
| Ok (a : A)
| Raise (e : exn).
Arguments Ok {A} a.
Arguments Raise {A} e.

Definition bind {A B : Type} (m : result A) (f : A -> result B) : result B :=
  match m with
  | Ok a => f a
  | Raise e => Raise e
  end.

Notation "x <- m ;; k" := (bind m (fun x => k))
  (at level 61, m at next level, right associativity).

(** [re.sub] with a [str] replacement; a bad template raises. *)
Definition re_sub {T : TemplateSyntax} (r : regex) (repl : str) (s : str) : result str :=
  match Re.sub r repl s with
  | Some out => Ok out
  | None => Raise bad_template
  end.

(** [re.sub] for a replacement that is written in the source and has no
    backslash: it stands for itself. *)
Definition sub_literal (r : regex) (repl : str) (s : str) : str :=
  sub_with r (fun _ => repl) s.

(** *** prep_text *)

Definition prep_text (text_in : str) : str :=
  let text := replace text_in (lit "--") (lit ", ") in
  let text := replace text [0x432; 0x496; 0x201D]%N (lit ", ") in
  let text := replace text (lit ";") (lit ", ") in
  let text := replace text (lit ":") (lit ", ") in
  let text := replace text (lit "''") (lit ", ") in
  let text := replace text [0x432; 0x496; 0x4B7]%N (lit "'") in
  let text := replace text [0x432; 0x496; 0x4A3]%N [DQUOTE] in
  let text := replace text [0x432; 0x496; 0x49B]%N [DQUOTE] in
  let text := replace text [0x432; 0x2014; 0x4AE]%N [] in
  let text := replace text
                [0x412; 0xA0; 46; 0x412; 0xA0; 46; 0x412; 0xA0; 46; 32]%N
                (lit ", ") in
  let text := replace text (lit "... ") (lit ", ") in
  let text := replace text [0x412; 0xAB]%N (lit " ") in
  let text := replace text [0x412; 0xBB]%N (lit " ") in
  let text := replace text (lit "[") [] in
  let text := replace text (lit "]") [] in
  let text := replace text (lit "&") (lit " and ") in
  let text := replace text (lit " GNU ") (lit " new ") in
  let text := replace text [NL] [SP; NL] in
  let text := replace text (lit "*") (lit " ") in
  strip text.

Definition blacklist : list string :=
  ["[document]"; "noscript"; "header"; "html"; "meta"; "head"; "input";
   "script"; "pre"; "code"]%string.

Definition title_levels : list string := ["title"; "h1"; "h2"; "h3"]%string.

(** The two [decompose] loops at the head of [get_chapters]. *)
Definition in_blacklist (name : string) (_ : list (string * str)) : bool :=
  existsb (String.eqb name) blacklist.

Definition is_link (name : string) (attrs : list (string * str)) : bool :=
  String.eqb name "a" && has_attr "href" attrs.

Definition filter_soup (s : soup) : soup :=
  decompose_all is_link (decompose_all in_blacklist s).

(** The title loop: the first level that [find] answers gives the title. *)
Fixpoint probe_title (levels : list string) (s : soup) : str :=
  match levels with
  | [] => []
  | level :: rest =>
      match find level s with
      | Some t => get_text t
      | None => probe_title rest s
      end
  end.

Definition is_nl (c : char) : bool := (c =? NL)%N.

(** [r"[\n]+"] or [r"[\n]{2,}"] by the mode, with the break string as the
    replacement template. *)
Definition collapse_newlines {T : TemplateSyntax}
           (mode break_string raw : str) : result str :=
  if str_eqb mode (lit "single") then
    re_sub (Many 0 is_nl) break_string (strip raw)
  else if str_eqb mode (lit "double") then
    re_sub (Many 1 is_nl) break_string (strip raw)
  else Raise (ValueError (lit "Invalid newline mode: " ++ mode)).

(** [re.sub(r"\s+", " ", ...)] *)
Definition squash_whitespace (s : str) : str :=
  sub_literal (Many 0 isspace) (lit " ") s.

(** The class from U+4E00 to U+9FA5. *)
Definition is_cjk (c : char) : bool := (in_range 0x4e00 0x9fa5 c)%N.

(** The class of the [re.split] call, character by character as the source
    file has it. *)
Definition sentence_end (c : char) : bool :=
  existsb (N.eqb c)
    [0x433; 0x496; 0x4EE; 0x43F; 0x458; 0x4B9; 0x43F; 0x458; 0x492]%N.

(** The body of the loop over the sentences: every sentence with a CJK character is
    replaced, wherever it occurs in the text so far, by itself without
    whitespace. *)
Definition despace_step (text sentence : str) : str :=
  if search (Class is_cjk) sentence
  then replace text sentence (sub_literal (Many 0 isspace) [] sentence)
  else text.

(** The CJK step, with the class of the [re.split] call as a parameter;
    [get_chapters] runs it with [sentence_end]. *)
Definition despace_cjk (ends : char -> bool) (text : str) : str :=
  fold_left despace_step (split (Class ends) text) text.

(** Python's Unicode database is not part of the repository: which code
    points from U+0080 on are alphanumeric, and which from U+0660 on are
    decimal digits, is left open. *)
Class UnicodeData : Type := {
  unicode_alnum : char -> bool;
  unicode_decimal : char -> bool
}.

Section Unicode.
Context {T : TemplateSyntax} {U : UnicodeData}.

(** [\w] *)
Definition is_word (c : char) : bool :=
  (c =? UNDERSCORE)%N
  || (if (c <? 128)%N then is_asciidigit c || is_asciiletter c
      else unicode_alnum c).

(** [\d] *)
Definition is_digit (c : char) : bool :=
  if (c <? 0x660)%N then is_asciidigit c else unicode_decimal c.

(** The class of the look-behind: the ASCII letters, then [. , ! ? ;], the
    three characters U+0432 U+0496 U+049B, the double quote and the closing
    parenthesis. *)
Definition endnote_lead (c : char) : bool :=
  is_asciiletter c
  || existsb (N.eqb c) [46; 44; 33; 63; 59; 0x432; 0x496; 0x49B; 34; 41]%N.

Definition strip_endnotes (s : str) : str :=
  sub_literal (Lookbehind endnote_lead (Many 0 is_digit)) [] s.

(** *** _sanitize_title *)

Definition not_word_or_space (c : char) : bool :=
  negb (is_word c || isspace c).

Definition _sanitize_title (title break_string : str) : str :=
  let title := replace title break_string (lit " ") in
  let sanitized_title := sub_literal (Class not_word_or_space) [] title in
  sub_literal (Many 0 isspace) (lit "_") (strip sanitized_title).

(** *** get_chapters *)

(** The text of one document, from [prep_text] to the CJK step. *)
Definition clean_text (config : GeneralConfig) (break_string raw : str)
  : result str :=
  let raw := prep_text raw in
  cleaned_text <- collapse_newlines (newline_mode config) break_string raw ;;
  let cleaned_text := squash_whitespace cleaned_text in
  let cleaned_text :=
    if remove_endnotes config then strip_endnotes cleaned_text
    else cleaned_text in
  let cleaned_text :=
    if startswith (language config) (lit "zh")
    then despace_cjk sentence_end cleaned_text
    else cleaned_text in
  Ok cleaned_text.

(** The body of the loop of [get_chapters]. *)
Definition chapter_of (config : GeneralConfig) (break_string : str)
           (item : soup) : result (str * str) :=
  let s := filter_soup item in
  let title := probe_title title_levels s in
  let raw := soup_text s in
  cleaned_text <- clean_text config break_string raw ;;
  let title :=
    match title with
    | [] => slice_to 60 cleaned_text
    | _ => title
    end in
  Ok (_sanitize_title title break_string, cleaned_text).

Fixpoint get_chapters (config : GeneralConfig) (break_string : str)
         (book : list soup) : result (list (str * str)) :=
  match book with
  | [] => Ok []
  | item :: rest =>
      chapter <- chapter_of config break_string item ;;
      chapters <- get_chapters config break_string rest ;;
      Ok (chapter :: chapters)
  end.

End Unicode.

End EpubBookParser.

(** ** Maximal runs

    The vocabulary of the specification: a text cut into its maximal runs of
    the characters of a class and the gaps between them. *)

Module Runs.
Import PyStr.

Inductive piece : Type :=
| Run (r : str)
| Gap (g : str).

Definition piece_text (pc : piece) : str :=
  match pc with
  | Run r => r
  | Gap g => g
  end.

Definition text_of (pcs : list piece) : str := flat_map piece_text pcs.

Definition is_run (pc : piece) : bool :=
  match pc with
  | Run _ => true
  | Gap _ => false
  end.

Definition nonempty (s : str) : bool :=
  match s with
  | [] => false
  | _ :: _ => true
  end.

(** A run is a non-empty string of class characters, a gap a non-empty
    string without any. *)
Definition piece_ok (p : char -> bool) (pc : piece) : bool :=
  match pc with
  | Run r => nonempty r && forallb p r
  | Gap g => nonempty g && forallb (fun c => negb (p c)) g
  end.

(** Runs and gaps take turns, which makes the runs maximal. *)
Fixpoint alternate (pcs : list piece) : bool :=
  match pcs with
  | [] => true
  | pc :: rest =>
      match rest with
      | [] => true
      | pc' :: _ => negb (Bool.eqb (is_run pc) (is_run pc'))
      end && alternate rest
  end.

Definition maximal_runs (p : char -> bool) (pcs : list piece) : bool :=
  forallb (piece_ok p) pcs && alternate pcs.

(** The cut of a given text. *)
Fixpoint runs (p : char -> bool) (s : str) : list piece :=
  match s with
  | [] => []
  | c :: s' =>
      match runs p s' with
      | Run r :: rest =>
          if p c then Run (c :: r) :: rest else Gap [c] :: Run r :: rest
      | Gap g :: rest =>
          if p c then Run [c] :: Gap g :: rest else Gap (c :: g) :: rest
      | [] => [if p c then Run [c] else Gap [c]]
      end
  end.

(** The character just before what follows [l], when [prev] was the one
    before [l]. *)
Definition last_or (prev : option char) (l : str) : option char :=
  fold_left (fun _ c => Some c) l prev.

Definition follows (lead : char -> bool) (prev : option char) : bool :=
  match prev with
  | Some c => lead c
  | None => false
  end.

(** Every run of at least [k + 1] characters becomes [repl]. *)
Definition replace_runs (k : nat) (repl : str) (pcs : list piece) : str :=
  flat_map (fun pc =>
              match pc with
              | Run r => if k <? length r then repl else r
              | Gap g => g
              end) pcs.

(** Every run that comes right after a [lead] character is dropped. *)
Fixpoint drop_runs_after (lead : char -> bool) (prev : option char)
         (pcs : list piece) : str :=
  match pcs with
  | [] => []
  | Run r :: rest =>
      (if follows lead prev then [] else r)
        ++ drop_runs_after lead (last_or prev r) rest
  | Gap g :: rest => g ++ drop_runs_after lead (last_or prev g) rest
  end.

(** What a text starts with. *)
Definition head_not (p : char -> bool) (s : str) : Prop :=
  match s with
  | [] => True
  | c :: _ => p c = false
  end.

Definition head_is (p : char -> bool) (s : str) : Prop :=
  match s with
  | [] => True
  | c :: _ => p c = true
  end.

End Runs.

(** ** The words of the specification *)

Module Spec.
Import PyStr Re Soup Runs EpubBookParser.

(** A tree as lxml leaves it at the top: no element but [html]; beside it
    stand the strings of the file outside the element, its declarations and
    comments and the line breaks between them. *)
Definition html_rooted (s : soup) : bool :=
  forallb (fun n =>
             match n with
             | Tag name _ _ => String.eqb name "html"
             | _ => true
             end) s.

Definition is_string (n : node) : bool :=
  match n with
  | Tag _ _ _ => false
  | _ => true
  end.

(** What is left of such a tree once the elements are gone: its strings at
    the top. *)
Definition top_strings (s : soup) : soup := filter is_string s.

(** The first element named [name] at or below a node: the node itself, or
    else the first one found in its contents, taken from left to right. *)
Fixpoint first_named (name : string) (n : node) : option node :=
  match n with
  | Tag nm _ kids =>
      if String.eqb nm name then Some n
      else (fix first_among (l : list node) : option node :=
              match l with
              | [] => None
              | k :: l' =>
                  match first_named name k with
                  | Some e => Some e
                  | None => first_among l'
                  end
              end) kids
  | _ => None
  end.

(** The first element named [name] of a tree. *)
Fixpoint first_of (name : string) (l : list node) : option node :=
  match l with
  | [] => None
  | k :: l' =>
      match first_named name k with
      | Some e => Some e
      | None => first_of name l'
      end
  end.

(** [within e n]: [e] is [n] or lies below it, at any depth. *)
Inductive within (e : node) : node -> Prop :=
| within_here : within e e
| within_below name attrs kids k :
    In k kids -> within e k -> within e (Tag name attrs kids).

Definition occurs (e : node) (s : soup) : Prop :=
  exists n, In n s /\ within e n.

(** The element the title is read from: the first [title] element, or
    without one the first [h1], else the first [h2], else the first [h3]. *)
Definition title_element (s : soup) : option node :=
  match first_of "title" s with
  | Some e => Some e
  | None =>
      match first_of "h1" s with
      | Some e => Some e
      | None =>
          match first_of "h2" s with
          | Some e => Some e
          | None => first_of "h3" s
          end
      end
  end.

Definition valid_mode (mode : str) : Prop :=
  mode = lit "single" \/ mode = lit "double".

(** A text as its segments and the separators between them. *)
Definition assemble (first : str) (rest : list (char * str)) : str :=
  first ++ flat_map (fun p => fst p :: snd p) rest.

(** The separators are characters of the class [ends], the segments have
    none. *)
Definition well_cut (ends : char -> bool) (first : str)
           (rest : list (char * str)) : bool :=
  forallb (fun c => negb (ends c)) first
  && forallb (fun p => ends (fst p) && forallb (fun c => negb (ends c)) (snd p))
             rest.

(** The segments and separators of a given text. *)
Fixpoint cut (ends : char -> bool) (s : str) : str * list (char * str) :=
  match s with
  | [] => ([], [])
  | c :: s' =>
      let (first, rest) := cut ends s' in
      if ends c then ([], (c, first) :: rest) else (c :: first, rest)
  end.

Definition remove_whitespace (s : str) : str :=
  filter (fun c => negb (isspace c)) s.

Definition has_cjk (s : str) : bool := existsb is_cjk s.

(** No other segment with a CJK character occurs inside [x]. *)
Definition collision_free (segs : list str) (x : str) : bool :=
  forallb (fun s => negb (has_cjk s) || str_eqb s x || negb (contains x s))
          segs.

(** The segments of the final text, each the image of a segment of the
    input. *)
Definition map_segments (f : str -> str) (rest : list (char * str))
  : list (char * str) :=
  map (fun p => (fst p, f (snd p))) rest.

(** The punctuation that file systems refuse in a name. *)
Definition path_unsafe : str := lit "/\:*?<>|" ++ [DQUOTE].

Fixpoint lstrip_underscores (s : str) : str :=
  match s with
  | [] => []
  | c :: s' => if (c =? UNDERSCORE)%N then lstrip_underscores s' else s
  end.

Definition strip_underscores (s : str) : str :=
  rev (lstrip_underscores (rev (lstrip_underscores s))).

(** The look-behind class as the specification lists it: a Latin letter, a
    period, comma, exclamation mark, question mark, semicolon, or a closing
    double quote, the characters of its corrupted encoding included. *)
Definition endnote_lead_spec (c : char) : bool :=
  is_asciiletter c
  || existsb (N.eqb c) [46; 44; 33; 63; 59; 0x432; 0x496; 0x49B; 34]%N.

Section Unicode.
Context {U : UnicodeData}.

(** The steps of the title sanitizer in the order the specification gives
    them: whitespace runs become underscores first, underscores are
    stripped from both ends last. *)
Definition sanitize_title_spec (title break_string : str) : str :=
  let title := replace title break_string (lit " ") in
  let kept :=
    sub_literal (Class not_word_or_space) [] title in
  strip_underscores (sub_literal (Many 0 isspace) (lit "_") kept).

End Unicode.

End Spec.

(** ** Sample inputs *)

Module Samples.
Import PyStr Soup Runs EpubBookParser.

(** A Unicode database that knows no alphanumeric or decimal character
    outside the ranges the model fixes; on ASCII text every database
    agrees with it. *)
Definition plain : UnicodeData :=
  {| unicode_alnum := fun _ => false; unicode_decimal := fun _ => false |}.

(** A template syntax in which the name [0] alone stands for group 0; every
    version of the interpreter takes that spelling. *)
Definition zero_only : Re.TemplateSyntax :=
  {| Re.names_group0 := fun name => str_eqb name (lit "0") |}.

Definition BRK : str := lit " @BRK#".

Definition config_en : GeneralConfig :=
  {| newline_mode := lit "single"; remove_endnotes := false;
     language := lit "en" |}.

Definition config_bad : GeneralConfig :=
  {| newline_mode := lit "triple"; remove_endnotes := false;
     language := lit "en" |}.

Definition config_zh : GeneralConfig :=
  {| newline_mode := lit "double"; remove_endnotes := true;
     language := lit "zh-CN" |}.

(** The elements of [<h1>Chapter One</h1><p>He said--"Hello;there."</p>]. *)
Definition chapter_one_body : list node :=
  [Tag "h1" [] [NavigableString (lit "Chapter One")];
   Tag "p" []
     [NavigableString
        (lit "He said--" ++ [DQUOTE] ++ lit "Hello;there." ++ [DQUOTE])]].

Definition chapter_one_text : str :=
  lit "He said, " ++ [DQUOTE] ++ lit "Hello, there." ++ [DQUOTE].

(** A tree of the shape a document item of an EPUB file is parsed to: the
    doctype, the [html] element, and a line break of the file that stands
    beside the element as a string. *)
Definition chapter_one_item : soup :=
  [SpecialString (lit "html");
   Tag "html" []
     [Tag "head" [] [Tag "title" [] [NavigableString (lit "Chapter One")]];
      Tag "body" [] chapter_one_body];
   NavigableString [NL]].

(** A tree whose first [h3] comes before its first [h2], and whose first
    [h2] lies two levels down, before one at the top. *)
Definition nested_headings : soup :=
  [Tag "div" []
     [Tag "h3" [] [NavigableString (lit "Third")];
      Tag "section" [] [Tag "h2" [] [NavigableString (lit "Deep")]]];
   Tag "h2" [] [NavigableString (lit "Later")]].

(** A tree without a heading, with a text of 72 characters. *)
Definition long_paragraph : soup :=
  [Tag "p" []
     [NavigableString
        (lit "It was a bright cold day in April and the clocks were striking thirteen.")]].

Definition zhong : char := 0x4e2d%N.
Definition ge : char := 0x433%N.

(** Two segments around a separator of the split class; the first occurs
    again inside the second. *)
Definition seg1 : str := [zhong; SP; 97]%N.
Definition seg2 : str := [120; SP; zhong; SP; 97; SP; 121]%N.

(** Decides that a given string has no backslash. *)
Ltac no_backslash :=
  let H := fresh in
  intro H; simpl in H;
  repeat (destruct H as [H|H]; [discriminate H|]); exact H.

End Samples.

(** ** Further code of the parser *)

Module Config.
Import PyStr EpubBookParser.

(** [s.endswith(suffix)] *)
Definition endswith (s suffix : str) : bool :=
  startswith (rev s) (rev suffix).

(** [validate_config], on the one setting it reads: [config.input_file],
    which is [None] or a path. *)
Definition validate_config (input_file : option str) : result unit :=
  match input_file with
  | None => Raise (ValueError (lit "Epub Parser: Input file cannot be empty"))
  | Some path =>
      if negb (endswith path (lit ".epub"))
      then Raise (ValueError
                    (lit "Epub Parser: Unsupported file format: " ++ path))
      else Ok tt
  end.

End Config.

(** ** Shapes of trees and texts *)

Module Shape.
Import PyStr Soup Runs.

(** The tags that a [decompose] loop selects. *)
Definition selected (sel : string -> list (string * str) -> bool)
           (n : node) : bool :=
  match n with
  | Tag name attrs _ => sel name attrs
  | _ => false
  end.

(** The same string, or the same tag whatever is below it. *)
Definition same_node (t n : node) : Prop :=
  match t, n with
  | Tag name attrs _, Tag name' attrs' _ => name = name' /\ attrs = attrs'
  | NavigableString s, NavigableString s' => s = s'
  | SpecialString s, SpecialString s' => s = s'
  | _, _ => False
  end.

(** No node of the tree is selected. *)
Definition free_of (sel : string -> list (string * str) -> bool)
           (s : soup) : Prop :=
  forall n, In n (flat_map descendants s) -> selected sel n = false.

(** No character of the class [p] comes right after one of the class
    [lead]; [prev] is the character before the text. *)
Fixpoint none_after (lead p : char -> bool) (prev : option char)
         (s : str) : bool :=
  match s with
  | [] => true
  | c :: s' =>
      negb (follows lead prev && p c) && none_after lead p (Some c) s'
  end.

(** No two characters of the class [p] stand side by side. *)
Definition no_adjacent (p : char -> bool) (s : str) : bool :=
  none_after p p None s.

(** Neither end of the text is whitespace. *)
Definition stripped (s : str) : Prop :=
  head_not isspace s /\ head_not isspace (rev s).

(** [sep.join(l)] *)
Fixpoint join (sep : str) (l : list str) : str :=
  match l with
  | [] => []
  | x :: rest =>
      match rest with
      | [] => x
      | _ :: _ => x ++ sep ++ join sep rest
      end
  end.

(** The gaps of a cut. *)
Definition gaps (pcs : list piece) : list str :=
  flat_map (fun pc => match pc with Gap g => [g] | Run _ => [] end) pcs.

(** [s.split()]: the maximal pieces of [s] without whitespace. *)
Definition words (s : str) : list str := gaps (runs isspace s).

(** A cut without the run at its head, and without the run at its end. *)
Definition ltrim (pcs : list piece) : list piece :=
  match pcs with
  | Run _ :: rest => rest
  | _ => pcs
  end.

Fixpoint rtrim (pcs : list piece) : list piece :=
  match pcs with
  | [] => []
  | pc :: rest =>
      match pc, rest with
      | Run _, [] => []
      | _, _ => pc :: rtrim rest
      end
  end.

End Shape.

(** ** Facts about the Python strings *)

Module PyStrFacts.
Import PyStr.

Lemma startswith_nil (s : str) : startswith s [] = true.
Proof. destruct s; reflexivity. Qed.

Lemma startswith_iff (s p : str) :
  startswith s p = true <-> exists r, s = p ++ r.
Proof.
  revert s; induction p as [|a p IH]; intros s.
  - rewrite startswith_nil. split; [exists s; reflexivity | reflexivity].
  - destruct s as [|b s]; simpl.
    + split; [discriminate | intros [r Hr]; discriminate].
    + rewrite andb_true_iff, N.eqb_eq, IH. split.
      * intros [-> [r ->]]. exists r; reflexivity.
      * intros [r Hr]. injection Hr as -> ->. split; [reflexivity | exists r; reflexivity].
Qed.

Lemma startswith_app (p r : str) : startswith (p ++ r) p = true.
Proof. apply startswith_iff. exists r; reflexivity. Qed.

Lemma startswith_refl (p : str) : startswith p p = true.
Proof. apply startswith_iff. exists []. symmetry; apply app_nil_r. Qed.

Lemma startswith_incl (s p : str) c :
  startswith s p = true -> In c p -> In c s.
Proof.
  intros H Hc. apply startswith_iff in H as [r ->]. apply in_or_app; left; exact Hc.
Qed.

Lemma startswith_length (s p : str) :
  startswith s p = true -> length p <= length s.
Proof.
  intros H. apply startswith_iff in H as [r ->]. rewrite length_app. lia.
Qed.

Lemma contains_iff (s p : str) :
  contains s p = true <-> exists a b, s = a ++ p ++ b.
Proof.
  induction s as [|c s IH]; cbn [contains].
  - rewrite orb_false_r, startswith_iff. split.
    + intros [r Hr]. exists [], r. exact Hr.
    + intros [a [b H]]. destruct a; [exists b; exact H | discriminate].
  - rewrite orb_true_iff, IH, startswith_iff. split.
    + intros [[r Hr] | [a [b H]]].
      * exists [], r. exact Hr.
      * exists (c :: a), b. simpl. rewrite H. reflexivity.
    + intros [a [b H]]. destruct a as [|x a].
      * left. exists b. exact H.
      * right. injection H as _ H. exists a, b. exact H.
Qed.

Lemma contains_incl (s p : str) c : contains s p = true -> In c p -> In c s.
Proof.
  intros H Hc. apply contains_iff in H as [a [b ->]].
  apply in_or_app; right. apply in_or_app; left. exact Hc.
Qed.

Lemma contains_refl (p : str) : contains p p = true.
Proof. apply contains_iff. exists [], []. simpl. symmetry; apply app_nil_r. Qed.

Lemma contains_nil (s : str) : contains s [] = true.
Proof. apply contains_iff. exists [], s. reflexivity. Qed.

(** *** str.replace *)

Lemma replace_from_skip (old new : str) (k : nat) (s : str) :
  replace_from old new k s = replace_from old new 0 (skipn k s).
Proof.
  revert k; induction s as [|c s IH]; intros k.
  - destruct k; reflexivity.
  - destruct k as [|k]; [reflexivity|]. simpl. apply IH.
Qed.

(** The equations of [replace] for a non-empty [old]. *)
Lemma replace_nil (old new : str) : old <> [] -> replace [] old new = [].
Proof. destruct old; [congruence | reflexivity]. Qed.

Lemma replace_cons (old new : str) c (s : str) :
  old <> [] ->
  replace (c :: s) old new =
  if startswith (c :: s) old
  then new ++ replace (skipn (length old) (c :: s)) old new
  else c :: replace s old new.
Proof.
  destruct old as [|o old]; [congruence|]. intros _.
  unfold replace. cbn [replace_from].
  destruct (startswith (c :: s) (o :: old)); [|reflexivity].
  rewrite replace_from_skip. reflexivity.
Qed.

Lemma replace_hit (old new rest : str) :
  old <> [] -> replace (old ++ rest) old new = new ++ replace rest old new.
Proof.
  intros Hne. destruct old as [|o old]; [congruence|].
  change ((o :: old) ++ rest) with (o :: (old ++ rest)).
  rewrite replace_cons by exact Hne.
  change (o :: old ++ rest) with ((o :: old) ++ rest).
  rewrite startswith_app, skipn_app, skipn_all, Nat.sub_diag. reflexivity.
Qed.

Lemma replace_miss (old new : str) c (s : str) :
  old <> [] -> startswith (c :: s) old = false ->
  replace (c :: s) old new = c :: replace s old new.
Proof. intros Hne H. rewrite replace_cons, H by exact Hne. reflexivity. Qed.

(** Induction along the scan of [replace]. *)
Lemma replace_ind (old : str) (P : str -> Prop) :
  old <> [] ->
  P [] ->
  (forall rest, P rest -> P (old ++ rest)) ->
  (forall c s, startswith (c :: s) old = false -> P s -> P (c :: s)) ->
  forall s, P s.
Proof.
  intros Hne Hnil Hhit Hmiss s.
  remember (length s) as n eqn:Hn. revert s Hn.
  induction n as [n IH] using lt_wf_ind. intros s Hn.
  destruct s as [|c s]; [exact Hnil|].
  destruct (startswith (c :: s) old) eqn:E.
  - apply startswith_iff in E as [r E]. rewrite E. apply Hhit.
    apply (IH (length r)); [|reflexivity].
    subst n. rewrite E, length_app. destruct old; [congruence|simpl; lia].
  - apply Hmiss; [exact E|]. apply (IH (length s)); [subst n; simpl; lia | reflexivity].
Qed.

Lemma replace_absent (s old new : str) :
  old <> [] -> contains s old = false -> replace s old new = s.
Proof.
  intros Hne. induction s as [|c s IH]; intros H.
  - apply replace_nil, Hne.
  - simpl in H. apply orb_false_iff in H as [H1 H2].
    rewrite replace_miss by assumption. rewrite IH by exact H2. reflexivity.
Qed.

Lemma replace_self (x new : str) : x <> [] -> replace x x new = new.
Proof.
  intros Hne. rewrite <- (app_nil_r x) at 1.
  rewrite replace_hit by exact Hne. rewrite replace_nil by exact Hne.
  apply app_nil_r.
Qed.

Lemma replace_same (s old : str) : old <> [] -> replace s old old = s.
Proof.
  intros Hne. revert s. apply replace_ind with (old := old); [exact Hne | | |].
  - apply replace_nil, Hne.
  - intros rest IH. rewrite replace_hit, IH by exact Hne. reflexivity.
  - intros c s E IH. rewrite replace_miss, IH by assumption. reflexivity.
Qed.

Lemma replace_chars (s old new : str) c :
  In c (replace s old new) -> In c s \/ In c new.
Proof.
  destruct old as [|o old].
  - unfold replace. intros H. apply in_app_or in H as [H|H]; [right; exact H|].
    apply in_flat_map in H as [x [Hx [H|H]]]; [subst; left; exact Hx | right; exact H].
  - assert (Hne : o :: old <> []) by discriminate. revert Hne.
    generalize (o :: old). clear o old. intros old Hne.
    revert s.
    apply (@replace_ind old
             (fun s => In c (replace s old new) -> In c s \/ In c new) Hne).
    + rewrite replace_nil by exact Hne. intros [].
    + intros rest IH. rewrite replace_hit by exact Hne. intros H.
      apply in_app_or in H as [H|H]; [right; exact H|].
      destruct (IH H) as [H'|H']; [left | right; exact H'].
      apply in_or_app; right; exact H'.
    + intros x s E IH. rewrite replace_miss by assumption.
      intros [H|H]; [left; left; exact H|].
      destruct (IH H) as [H'|H']; [left; right; exact H' | right; exact H'].
Qed.

(** A character that [old] does not have cuts the text in two for
    [replace]. *)
Lemma startswith_cut (a b old : str) sep :
  ~ In sep old -> startswith (a ++ sep :: b) old = startswith a old.
Proof.
  revert a; induction old as [|o old IH]; intros a Hsep.
  - rewrite !startswith_nil. reflexivity.
  - destruct a as [|x a]; simpl.
    + destruct (N.eqb_spec o sep) as [->|_]; [|reflexivity].
      exfalso; apply Hsep; left; reflexivity.
    + rewrite IH; [reflexivity|]. intros H; apply Hsep; right; exact H.
Qed.

Lemma replace_cut (a b old new : str) sep :
  old <> [] -> ~ In sep old ->
  replace (a ++ sep :: b) old new = replace a old new ++ sep :: replace b old new.
Proof.
  intros Hne Hsep. revert a.
  apply replace_ind with (old := old); [exact Hne | | |].
  - rewrite replace_nil by exact Hne. simpl.
    apply replace_miss; [exact Hne|].
    change (sep :: b) with ([] ++ sep :: b).
    rewrite (@startswith_cut [] b old sep Hsep).
    destruct old; [congruence | reflexivity].
  - intros rest IH. rewrite <- app_assoc, !replace_hit, IH by exact Hne.
    rewrite app_assoc. reflexivity.
  - intros c a E IH. change ((c :: a) ++ sep :: b) with (c :: (a ++ sep :: b)).
    rewrite !replace_miss; try assumption.
    + rewrite IH. reflexivity.
    + change (c :: a ++ sep :: b) with ((c :: a) ++ sep :: b).
      rewrite startswith_cut; assumption.
Qed.

(** *** str.strip *)

Lemma lstrip_no_space (s : str) :
  (forall c, In c s -> isspace c = false) -> lstrip s = s.
Proof. destruct s as [|c s]; [reflexivity|]. intros H. simpl. rewrite H; [reflexivity | left; reflexivity]. Qed.

Lemma strip_no_space (s : str) :
  (forall c, In c s -> isspace c = false) -> strip s = s.
Proof.
  intros H. unfold strip, rstrip. rewrite (lstrip_no_space s H).
  rewrite lstrip_no_space; [apply rev_involutive|].
  intros c Hc. apply H. apply in_rev. exact Hc.
Qed.

Lemma lstrip_chars (s : str) c : In c (lstrip s) -> In c s.
Proof.
  induction s as [|x s IH]; simpl; [tauto|].
  destruct (isspace x); [intros H; right; apply IH, H | tauto].
Qed.

Lemma strip_chars (s : str) c : In c (strip s) -> In c s.
Proof.
  unfold strip, rstrip. intros H. apply in_rev in H. apply lstrip_chars in H.
  apply in_rev in H. apply lstrip_chars in H. exact H.
Qed.

Lemma strip_nil : strip [] = [].
Proof. reflexivity. Qed.

End PyStrFacts.

(** ** Facts about maximal runs *)

Module RunsFacts.
Import PyStr Runs.

Lemma runs_text (p : char -> bool) (s : str) : text_of (runs p s) = s.
Proof.
  induction s as [|c s IH]; [reflexivity|]. simpl.
  destruct (runs p s) as [|[r|g] rest]; simpl in *;
    destruct (p c); simpl; rewrite <- IH; reflexivity.
Qed.

Lemma runs_maximal (p : char -> bool) (s : str) :
  maximal_runs p (runs p s) = true.
Proof.
  unfold maximal_runs. induction s as [|c s IH]; [reflexivity|]. simpl.
  destruct (runs p s) as [|[r|g] rest]; simpl in *;
    destruct (p c) eqn:E; simpl; rewrite ?E; simpl;
    repeat (apply andb_true_iff in IH as [IH ?]);
    repeat (apply andb_true_iff; split); auto;
    repeat match goal with
           | H : _ && _ = true |- _ => apply andb_true_iff in H as [? ?]
           end; auto.
Qed.

Lemma last_or_app (prev : option char) (a b : str) :
  last_or prev (a ++ b) = last_or (last_or prev a) b.
Proof. unfold last_or. apply fold_left_app. Qed.

Lemma last_or_cons (prev : option char) c (l : str) :
  last_or prev (c :: l) = last_or (Some c) l.
Proof. reflexivity. Qed.

Lemma last_or_some (prev : option char) c (l : str) :
  exists d, last_or prev (c :: l) = Some d /\ In d (c :: l).
Proof.
  revert prev c; induction l as [|x l IH]; intros prev c.
  - exists c. split; [reflexivity | left; reflexivity].
  - destruct (IH (Some c) x) as [d [H1 H2]]. exists d. split; [exact H1 | right; exact H2].
Qed.

Lemma forallb_In (A : Type) (f : A -> bool) (l : list A) x :
  forallb f l = true -> In x l -> f x = true.
Proof. intros H Hx. rewrite forallb_forall in H. apply H, Hx. Qed.

Lemma maximal_run_inv (p : char -> bool) r rest :
  maximal_runs p (Run r :: rest) = true ->
  r <> [] /\ (forall c, In c r -> p c = true) /\
  head_not p (text_of rest) /\ maximal_runs p rest = true.
Proof.
  unfold maximal_runs. simpl. intros H.
  repeat match goal with
         | H : _ && _ = true |- _ => apply andb_true_iff in H as [? ?]
         end.
  split; [destruct r; [discriminate | discriminate]|].
  split; [intros c; apply forallb_In; assumption|].
  split; [| apply andb_true_iff; split; assumption].
  destruct rest as [|[r'|g] rest']; simpl in *; [exact I | discriminate|].
  repeat match goal with
         | H : _ && _ = true |- _ => apply andb_true_iff in H as [? ?]
         end.
  destruct g as [|x g]; [discriminate|]. simpl in *.
  repeat match goal with
         | H : _ && _ = true |- _ => apply andb_true_iff in H as [? ?]
         end.
  apply negb_true_iff. assumption.
Qed.

Lemma maximal_gap_inv (p : char -> bool) g rest :
  maximal_runs p (Gap g :: rest) = true ->
  g <> [] /\ (forall c, In c g -> p c = false) /\
  head_is p (text_of rest) /\ maximal_runs p rest = true.
Proof.
  unfold maximal_runs. simpl. intros H.
  repeat match goal with
         | H : _ && _ = true |- _ => apply andb_true_iff in H as [? ?]
         end.
  split; [destruct g; [discriminate | discriminate]|].
  split; [intros c Hc; apply negb_true_iff;
          apply (forallb_In (fun c => negb (p c)) g); assumption|].
  split; [| apply andb_true_iff; split; assumption].
  destruct rest as [|[r|g'] rest']; simpl in *; [exact I | | discriminate].
  repeat match goal with
         | H : _ && _ = true |- _ => apply andb_true_iff in H as [? ?]
         end.
  destruct r as [|x r]; [discriminate|]. simpl in *.
  repeat match goal with
         | H : _ && _ = true |- _ => apply andb_true_iff in H as [? ?]
         end.
  assumption.
Qed.

End RunsFacts.

(** ** Facts about the regular expressions *)

Module ReFacts.
Import PyStr Re Runs PyStrFacts RunsFacts.

(** *** Templates *)

(** The fuel of the template parser never runs out. *)
Lemma getuntil_gt_shorter (s name rest : str) :
  getuntil_gt s = Some (name, rest) -> length rest < length s.
Proof.
  remember (length s) as n eqn:Hn.
  assert (Hle : length s <= n) by lia. clear Hn.
  revert s name rest Hle.
  induction n as [|n IH]; intros s name rest Hle.
  - destruct s; [discriminate | simpl in Hle; lia].
  - destruct s as [|c s]; [discriminate|].
    simpl in Hle. cbn [getuntil_gt].
    destruct (c =? 62)%N.
    + intros H. assert (rest = s) by congruence. subst. simpl. lia.
    + destruct (c =? BACKSLASH)%N.
      * destruct s as [|e s]; [discriminate|].
        destruct (getuntil_gt s) as [[nm r]|] eqn:G; [|discriminate].
        intros H. assert (rest = r) by congruence. subst.
        apply IH in G; simpl in *; lia.
      * destruct (getuntil_gt s) as [[nm r]|] eqn:G; [|discriminate].
        intros H. assert (rest = r) by congruence. subst.
        apply IH in G; simpl in *; lia.
Qed.

Section Templates.
Context {T : TemplateSyntax}.

Lemma parse_template_fuel_enough (n m : nat) (s : str) :
  length s <= n -> length s <= m ->
  parse_template_fuel n s = parse_template_fuel m s.
Proof.
  revert m s. induction n as [|n IH]; intros m s Hn Hm.
  - destruct s; [|simpl in Hn; lia]. destruct m; reflexivity.
  - destruct m as [|m].
    + destruct s; [reflexivity | simpl in Hm; lia].
    + cbn [parse_template_fuel].
      assert (E : forall rest, length rest < length s ->
                  parse_template_fuel n rest = parse_template_fuel m rest)
        by (intros rest Hr; apply IH; lia).
      destruct s as [|c rest]; [reflexivity|].
      destruct (negb (c =? BACKSLASH)%N).
      { rewrite E by (simpl; lia). reflexivity. }
      destruct rest as [|e rest1]; [reflexivity|].
      destruct (e =? 103)%N.
      { destruct rest1 as [|lt rest2]; [reflexivity|].
        destruct (lt =? 60)%N; [|reflexivity].
        destruct (getuntil_gt rest2) as [[name rest3]|] eqn:G; [|reflexivity].
        apply getuntil_gt_shorter in G.
        destruct name as [|n0 name]; [reflexivity|].
        destruct (names_group0 (n0 :: name)); [|reflexivity].
        rewrite E by (simpl; lia). reflexivity. }
      destruct (e =? 48)%N.
      { destruct rest1 as [|d1 rest2]; [rewrite E by (simpl; lia); reflexivity|].
        destruct (is_octdigit d1); [|rewrite E by (simpl; lia); reflexivity].
        destruct rest2 as [|d2 rest3]; [rewrite E by (simpl; lia); reflexivity|].
        destruct (is_octdigit d2); rewrite E by (simpl; lia); reflexivity. }
      destruct (is_asciidigit e).
      { destruct rest1 as [|d1 [|d2 rest3]]; try reflexivity.
        destruct (is_octdigit e && is_octdigit d1 && is_octdigit d2); [|reflexivity].
        destruct (255 <? _)%N; [reflexivity|].
        rewrite E by (simpl; lia). reflexivity. }
      destruct (escape e); [rewrite E by (simpl; lia); reflexivity|].
      destruct (is_asciiletter e); [reflexivity|].
      rewrite E by (simpl; lia). reflexivity.
Qed.

Lemma parse_template_plain (s : str) :
  ~ In BACKSLASH s ->
  parse_template s = Some (map (fun c => Literal [c]) s).
Proof.
  unfold parse_template. induction s as [|c s IH]; intros H; [reflexivity|].
  cbn [length parse_template_fuel].
  destruct (N.eqb_spec c BACKSLASH) as [->|_].
  - exfalso; apply H; left; reflexivity.
  - cbn [negb]. rewrite IH; [reflexivity|].
    intros Hin; apply H; right; exact Hin.
Qed.

Lemma expand_plain (s m : str) : expand (map (fun c => Literal [c]) s) m = s.
Proof.
  unfold expand. induction s as [|c s IH]; [reflexivity|].
  simpl. rewrite IH. reflexivity.
Qed.

Lemma sub_from_ext (r : regex) (f g : str -> str) :
  (forall m, f m = g m) ->
  forall s prev k, sub_from r f prev k s = sub_from r g prev k s.
Proof.
  intros E. induction s as [|c s IH]; intros prev k; [reflexivity|].
  simpl. destruct k as [|k]; [|apply IH].
  destruct (match_at r prev (c :: s)) as [[|n]|]; rewrite ?IH, ?E; reflexivity.
Qed.

(** A replacement without backslash stands for itself. *)
Lemma sub_plain (r : regex) (repl s : str) :
  ~ In BACKSLASH repl ->
  Re.sub r repl s = Some (sub_with r (fun _ => repl) s).
Proof.
  intros H. unfold Re.sub. rewrite parse_template_plain by exact H.
  f_equal. unfold sub_with. apply sub_from_ext. intros m. apply expand_plain.
Qed.

End Templates.

(** *** The scan of [sub] *)

Lemma sub_from_skip (r : regex) (repl : str -> str) (s : str) :
  forall prev k,
    sub_from r repl prev k s =
    sub_from r repl (last_or prev (firstn k s)) 0 (skipn k s).
Proof.
  induction s as [|c s IH]; intros prev k.
  - destruct k; reflexivity.
  - destruct k as [|k]; [reflexivity|].
    cbn [sub_from firstn skipn]. rewrite IH. reflexivity.
Qed.

(** The scan gives back what no match touches. *)
Lemma sub_from_miss (r : regex) (repl : str -> str) prev c (s : str) :
  match_at r prev (c :: s) = None ->
  sub_from r repl prev 0 (c :: s) = c :: sub_from r repl (Some c) 0 s.
Proof. intros H. cbn [sub_from]. rewrite H. reflexivity. Qed.

Lemma sub_from_hit (r : regex) (repl : str -> str) prev (m rest : str) :
  m <> [] -> match_at r prev (m ++ rest) = Some (length m) ->
  sub_from r repl prev 0 (m ++ rest) =
  repl m ++ sub_from r repl (last_or prev m) 0 rest.
Proof.
  intros Hne H. destruct m as [|c m]; [congruence|].
  change ((c :: m) ++ rest) with (c :: (m ++ rest)) in *.
  cbn [sub_from]. rewrite H. cbn [length].
  rewrite sub_from_skip.
  change (firstn (S (length m)) (c :: m ++ rest))
    with (c :: firstn (length m) (m ++ rest)).
  rewrite firstn_app, firstn_all, Nat.sub_diag, firstn_O, app_nil_r.
  rewrite skipn_app, skipn_all, Nat.sub_diag. reflexivity.
Qed.

Lemma sub_from_chars (r : regex) (repl : str) (s : str) c :
  forall prev k,
    In c (sub_from r (fun _ => repl) prev k s) -> In c s \/ In c repl.
Proof.
  induction s as [|x s IH]; intros prev k; [intros []|].
  cbn [sub_from]. destruct k as [|k].
  - destruct (match_at r prev (x :: s)) as [[|n]|].
    + intros [H|H]; [left; left; exact H|].
      destruct (IH _ _ H); [left; right; assumption | right; assumption].
    + intros H. apply in_app_or in H as [H|H]; [right; exact H|].
      destruct (IH _ _ H); [left; right; assumption | right; assumption].
    + intros [H|H]; [left; left; exact H|].
      destruct (IH _ _ H); [left; right; assumption | right; assumption].
  - intros H. destruct (IH _ _ H); [left; right; assumption | right; assumption].
Qed.

(** *** Classes *)

Lemma span_all (p : char -> bool) (r t : str) :
  (forall c, In c r -> p c = true) -> head_not p t ->
  span p (r ++ t) = length r.
Proof.
  intros Hr Ht. induction r as [|c r IH]; simpl.
  - destruct t as [|x t]; [reflexivity|]. simpl in *. rewrite Ht. reflexivity.
  - rewrite Hr by (left; reflexivity). rewrite IH; [reflexivity|].
    intros x Hx; apply Hr; right; exact Hx.
Qed.

Lemma span_firstn (p : char -> bool) (s : str) c :
  In c (firstn (span p s) s) -> p c = true.
Proof.
  induction s as [|x s IH]; simpl; [intros []|].
  destruct (p x) eqn:E; simpl; [|intros []].
  intros [<-|H]; [exact E | apply IH, H].
Qed.

(** Deleting the matches of a class is a filter. *)
Lemma sub_class_delete (p : char -> bool) (s : str) :
  forall prev,
    sub_from (Class p) (fun _ => []) prev 0 s = filter (fun c => negb (p c)) s.
Proof.
  induction s as [|c s IH]; intros prev; [reflexivity|].
  cbn [sub_from match_at filter]. destruct (p c); cbn [negb app]; rewrite IH; reflexivity.
Qed.

Lemma sub_many_delete (p : char -> bool) (s : str) :
  forall prev k,
    (forall c, In c (firstn k s) -> p c = true) ->
    sub_from (Many 0 p) (fun _ => []) prev k s = filter (fun c => negb (p c)) s.
Proof.
  induction s as [|c s IH]; intros prev k Hk; [reflexivity|].
  cbn [sub_from filter]. destruct k as [|k].
  - cbn [match_at span]. destruct (p c) eqn:E; cbn [negb Nat.ltb Nat.leb app].
    + apply IH. intros x. apply span_firstn.
    + apply f_equal, IH. intros x [].
  - rewrite (Hk c) by (left; reflexivity). cbn [negb].
    apply IH. intros x Hx. apply Hk. right. exact Hx.
Qed.

(** *** Runs under a repetition *)

Lemma many_prev (k : nat) (p : char -> bool) (repl : str -> str) (s : str) :
  forall prev prev' n,
    sub_from (Many k p) repl prev n s = sub_from (Many k p) repl prev' n s.
Proof.
  induction s as [|c s IH]; intros prev prev' n; [reflexivity|].
  cbn [sub_from match_at]. destruct n; [|apply IH]. reflexivity.
Qed.

Lemma many_gap (k : nat) (p : char -> bool) (repl : str -> str) (g t : str) prev :
  (forall c, In c g -> p c = false) ->
  sub_from (Many k p) repl prev 0 (g ++ t) =
  g ++ sub_from (Many k p) repl prev 0 t.
Proof.
  intros Hg. revert prev; induction g as [|c g IH]; intros prev; [reflexivity|].
  change ((c :: g) ++ t) with (c :: (g ++ t)).
  rewrite sub_from_miss.
  - rewrite (@many_prev k p repl (g ++ t) (Some c) prev 0).
    rewrite (IH (fun x Hx => Hg x (or_intror Hx))). reflexivity.
  - cbn [match_at span]. rewrite Hg by (left; reflexivity). reflexivity.
Qed.

Lemma many_short_run (k : nat) (p : char -> bool) (repl : str -> str)
      (r t : str) prev :
  (forall c, In c r -> p c = true) -> head_not p t -> length r <= k ->
  sub_from (Many k p) repl prev 0 (r ++ t) =
  r ++ sub_from (Many k p) repl prev 0 t.
Proof.
  intros Hr Ht. revert prev; induction r as [|c r IH]; intros prev Hk; [reflexivity|].
  change ((c :: r) ++ t) with (c :: (r ++ t)).
  rewrite sub_from_miss.
  - rewrite (@many_prev k p repl (r ++ t) (Some c) prev 0).
    rewrite IH; [reflexivity | | simpl in Hk; lia].
    intros x Hx; apply Hr; right; exact Hx.
  - cbn [match_at]. change (c :: r ++ t) with ((c :: r) ++ t).
    rewrite span_all by assumption.
    destruct (Nat.ltb_spec k (length (c :: r))); [lia | reflexivity].
Qed.

Lemma many_long_run (k : nat) (p : char -> bool) (repl : str -> str)
      (r t : str) prev :
  (forall c, In c r -> p c = true) -> head_not p t -> k < length r ->
  sub_from (Many k p) repl prev 0 (r ++ t) =
  repl r ++ sub_from (Many k p) repl prev 0 t.
Proof.
  intros Hr Ht Hk. rewrite sub_from_hit.
  - rewrite (@many_prev k p repl t (last_or prev r) prev 0). reflexivity.
  - destruct r; [simpl in Hk; lia | discriminate].
  - cbn [match_at]. rewrite span_all by assumption.
    destruct (Nat.ltb_spec k (length r)); [reflexivity | lia].
Qed.

(** A repetition replaces exactly the maximal runs that are long enough. *)
Lemma sub_many_runs (k : nat) (p : char -> bool) (repl : str) (pcs : list piece) :
  maximal_runs p pcs = true ->
  sub_with (Many k p) (fun _ => repl) (text_of pcs) = replace_runs k repl pcs.
Proof.
  unfold sub_with. generalize (@None char) as prev.
  induction pcs as [|[r|g] rest IH]; intros prev H; [reflexivity | |].
  - apply maximal_run_inv in H as (Hne & Hr & Ht & Hrest).
    cbn [text_of flat_map piece_text replace_runs].
    destruct (Nat.ltb_spec k (length r)).
    + rewrite many_long_run by assumption. f_equal. apply IH, Hrest.
    + rewrite many_short_run by assumption. f_equal. apply IH, Hrest.
  - apply maximal_gap_inv in H as (Hne & Hg & Ht & Hrest).
    cbn [text_of flat_map piece_text replace_runs].
    rewrite many_gap by assumption. f_equal. apply IH, Hrest.
Qed.

(** *** Runs behind a look-behind *)

Section Lookbehind.
Variables (lead p : char -> bool).
Hypothesis lead_not_p : forall c, p c = true -> lead c = false.

Lemma behind_gap (g t : str) prev :
  (forall c, In c g -> p c = false) ->
  sub_from (Lookbehind lead (Many 0 p)) (fun _ => []) prev 0 (g ++ t) =
  g ++ sub_from (Lookbehind lead (Many 0 p)) (fun _ => []) (last_or prev g) 0 t.
Proof.
  intros Hg. revert prev; induction g as [|c g IH]; intros prev; [reflexivity|].
  change ((c :: g) ++ t) with (c :: (g ++ t)).
  rewrite sub_from_miss.
  - rewrite (IH (fun x Hx => Hg x (or_intror Hx))). reflexivity.
  - cbn [match_at span]. rewrite Hg by (left; reflexivity).
    destruct prev as [x|]; [destruct (lead x)|]; reflexivity.
Qed.

Lemma behind_kept (r t : str) prev :
  (forall c, In c r -> p c = true) -> follows lead prev = false ->
  sub_from (Lookbehind lead (Many 0 p)) (fun _ => []) prev 0 (r ++ t) =
  r ++ sub_from (Lookbehind lead (Many 0 p)) (fun _ => []) (last_or prev r) 0 t.
Proof.
  intros Hr. revert prev; induction r as [|c r IH]; intros prev Hprev; [reflexivity|].
  change ((c :: r) ++ t) with (c :: (r ++ t)).
  rewrite sub_from_miss.
  - rewrite IH; [reflexivity | |].
    + intros x Hx; apply Hr; right; exact Hx.
    + simpl. apply lead_not_p, Hr. left; reflexivity.
  - cbn [match_at]. destruct prev as [x|]; [|reflexivity].
    simpl in Hprev. rewrite Hprev. reflexivity.
Qed.

Lemma behind_dropped (r t : str) prev :
  r <> [] -> (forall c, In c r -> p c = true) -> head_not p t ->
  follows lead prev = true ->
  sub_from (Lookbehind lead (Many 0 p)) (fun _ => []) prev 0 (r ++ t) =
  sub_from (Lookbehind lead (Many 0 p)) (fun _ => []) (last_or prev r) 0 t.
Proof.
  intros Hne Hr Ht Hprev. rewrite sub_from_hit; [reflexivity | exact Hne |].
  cbn [match_at]. destruct prev as [x|]; [|discriminate].
  simpl in Hprev. rewrite Hprev. rewrite span_all by assumption.
  destruct r; [congruence | reflexivity].
Qed.

(** The matches are exactly the maximal runs that come right after a
    [lead] character. *)
Lemma sub_behind_runs (pcs : list piece) prev :
  maximal_runs p pcs = true ->
  sub_from (Lookbehind lead (Many 0 p)) (fun _ => []) prev 0 (text_of pcs) =
  drop_runs_after lead prev pcs.
Proof.
  revert prev. induction pcs as [|[r|g] rest IH]; intros prev H; [reflexivity | |].
  - apply maximal_run_inv in H as (Hne & Hr & Ht & Hrest).
    cbn [text_of flat_map piece_text drop_runs_after].
    destruct (follows lead prev) eqn:E.
    + rewrite behind_dropped by assumption. apply IH, Hrest.
    + rewrite behind_kept by assumption. f_equal. apply IH, Hrest.
  - apply maximal_gap_inv in H as (Hne & Hg & Ht & Hrest).
    cbn [text_of flat_map piece_text drop_runs_after].
    rewrite behind_gap by assumption. f_equal. apply IH, Hrest.
Qed.

End Lookbehind.

(** *** search and split on a class *)

Lemma search_class (p : char -> bool) (s : str) :
  forall prev, search_from (Class p) prev s = existsb p s.
Proof.
  induction s as [|c s IH]; intros prev; [reflexivity|].
  cbn [search_from match_at existsb]. destruct (p c); [reflexivity|].
  cbn [orb]. apply IH.
Qed.

Lemma split_class_piece (p : char -> bool) (seg : str) :
  (forall c, In c seg -> p c = false) ->
  forall prev cur rest,
    split_from (Class p) prev 0 cur (seg ++ rest) =
    split_from (Class p) (last_or prev seg) 0 (rev seg ++ cur) rest.
Proof.
  induction seg as [|c seg IH]; intros Hseg prev cur rest; [reflexivity|].
  change ((c :: seg) ++ rest) with (c :: (seg ++ rest)).
  cbn [split_from match_at]. rewrite Hseg by (left; reflexivity).
  rewrite IH by (intros x Hx; apply Hseg; right; exact Hx).
  cbn [rev]. rewrite <- app_assoc. reflexivity.
Qed.

End ReFacts.

(** ** Facts about the steps of the parser *)

Module ParserFacts.
Import PyStr Re Soup Runs EpubBookParser Spec.
Import PyStrFacts RunsFacts ReFacts.

(** *** Induction on the tree *)

Lemma node_nested_ind (P : node -> Prop) :
  (forall s, P (NavigableString s)) ->
  (forall s, P (SpecialString s)) ->
  (forall name attrs kids, Forall P kids -> P (Tag name attrs kids)) ->
  forall n, P n.
Proof.
  intros Hn Hs Ht. fix IH 1. intros [s|s|name attrs kids].
  - apply Hn.
  - apply Hs.
  - apply Ht. induction kids as [|k kids IHk]; constructor; [apply IH | exact IHk].
Qed.

Section Templates.
Context {T : TemplateSyntax}.

Lemma str_eqb_eq (a b : str) : str_eqb a b = true <-> a = b.
Proof.
  revert b; induction a as [|x a IH]; intros [|y b]; simpl;
    try (split; [discriminate | discriminate]); [tauto|].
  rewrite andb_true_iff, N.eqb_eq, IH. split.
  - intros [-> ->]; reflexivity.
  - intros H; injection H as -> ->; split; reflexivity.
Qed.

Lemma str_eqb_neq (a b : str) : a <> b -> str_eqb a b = false.
Proof.
  intros H. destruct (str_eqb a b) eqn:E; [|reflexivity].
  apply str_eqb_eq in E. contradiction.
Qed.

(** *** The bound results of the pipeline *)

Lemma re_sub_plain (r : regex) (repl s : str) :
  ~ In BACKSLASH repl -> re_sub r repl s = Ok (sub_literal r repl s).
Proof. intros H. unfold re_sub. rewrite sub_plain by exact H. reflexivity. Qed.

Lemma re_sub_ok (r : regex) (repl s out : str) :
  re_sub r repl s = Ok out ->
  exists items, parse_template repl = Some items
                /\ out = sub_with r (expand items) s.
Proof.
  unfold re_sub, Re.sub. destruct (parse_template repl) as [items|]; [|discriminate].
  intros H. injection H as <-. exists items. split; reflexivity.
Qed.

Lemma collapse_invalid (mode bs raw : str) :
  mode <> lit "single" -> mode <> lit "double" ->
  collapse_newlines mode bs raw =
  Raise (ValueError (lit "Invalid newline mode: " ++ mode)).
Proof.
  intros H1 H2. unfold collapse_newlines.
  rewrite (str_eqb_neq H1), (str_eqb_neq H2). reflexivity.
Qed.

Lemma collapse_plain (mode bs raw : str) :
  valid_mode mode -> ~ In BACKSLASH bs ->
  exists out, collapse_newlines mode bs raw = Ok out.
Proof.
  intros [-> | ->] H; unfold collapse_newlines; cbn [str_eqb lit];
    simpl; rewrite re_sub_plain by exact H; eexists; reflexivity.
Qed.

(** *** Whitespace *)

Lemma sub_many_chars (p : char -> bool) (repl : str) (s : str) c :
  forall prev k,
    (forall x, In x (firstn k s) -> p x = true) ->
    In c (sub_from (Many 0 p) (fun _ => repl) prev k s) ->
    In c repl \/ (In c s /\ p c = false).
Proof.
  induction s as [|x s IH]; intros prev k Hk; [intros []|].
  cbn [sub_from]. destruct k as [|k].
  - cbn [match_at span]. destruct (p x) eqn:E; cbn [Nat.ltb Nat.leb].
    + intros H. apply in_app_or in H as [H|H]; [left; exact H|].
      apply IH in H; [|intros y; apply span_firstn].
      destruct H as [H|[H1 H2]]; [left; exact H | right; split; [right|]; assumption].
    + intros [<-|H]; [right; split; [left; reflexivity | exact E]|].
      apply IH in H; [|intros y []].
      destruct H as [H|[H1 H2]]; [left; exact H | right; split; [right|]; assumption].
  - intros H. apply IH in H; [|intros y Hy; apply Hk; right; exact Hy].
    destruct H as [H|[H1 H2]]; [left; exact H | right; split; [right|]; assumption].
Qed.

Lemma squash_no_newline (s : str) : ~ In NL (squash_whitespace s).
Proof.
  unfold squash_whitespace, sub_literal, sub_with. intros H.
  apply sub_many_chars in H; [|intros x []].
  destruct H as [[H|[]]|[_ H]]; discriminate.
Qed.

Lemma despace_is_filter (s : str) :
  sub_literal (Many 0 isspace) [] s = remove_whitespace s.
Proof.
  unfold sub_literal, sub_with, remove_whitespace.
  apply sub_many_delete. intros c [].
Qed.

Lemma remove_whitespace_clean (s : str) c :
  In c (remove_whitespace s) -> isspace c = false.
Proof.
  unfold remove_whitespace. intros H. apply filter_In in H as [_ H].
  apply negb_true_iff, H.
Qed.

Lemma remove_whitespace_id (s : str) :
  (forall c, In c s -> isspace c = false) -> remove_whitespace s = s.
Proof.
  unfold remove_whitespace. induction s as [|c s IH]; intros H; [reflexivity|].
  simpl. rewrite (H c) by (left; reflexivity). simpl. rewrite IH; [reflexivity|].
  intros x Hx; apply H; right; exact Hx.
Qed.

(** *** The CJK step *)

Lemma has_cjk_nonempty (s : str) : has_cjk s = true -> s <> [].
Proof. destruct s; [discriminate | discriminate]. Qed.

Lemma despace_step_eq (text sentence : str) :
  despace_step text sentence =
  if has_cjk sentence
  then replace text sentence (remove_whitespace sentence)
  else text.
Proof.
  unfold despace_step, search. rewrite search_class, despace_is_filter.
  reflexivity.
Qed.

Lemma despace_step_chars (text sentence : str) c :
  In c (despace_step text sentence) ->
  In c text \/ isspace c = false.
Proof.
  rewrite despace_step_eq. destruct (has_cjk sentence); [|left; assumption].
  intros H. apply replace_chars in H as [H|H]; [left; exact H|].
  right. apply (remove_whitespace_clean _ _ H).
Qed.

Lemma despace_fold_no_newline (sentences : list str) (text : str) :
  ~ In NL text -> ~ In NL (fold_left despace_step sentences text).
Proof.
  revert text; induction sentences as [|s rest IH]; intros text H; [exact H|].
  simpl. apply IH. intros Hin.
  apply despace_step_chars in Hin as [Hin|Hin]; [apply H, Hin | discriminate].
Qed.

(** *** Documents of whitespace *)

Lemma absent_in_whitespace (s old : str) :
  (forall c, In c s -> isspace c = true) ->
  existsb (fun c => negb (isspace c)) old = true ->
  contains s old = false.
Proof.
  intros Hs Hold. destruct (contains s old) eqn:E; [|reflexivity].
  apply existsb_exists in Hold as [c [Hc Hns]].
  apply (contains_incl _ _ c E) in Hc. rewrite (Hs c Hc) in Hns. discriminate.
Qed.

Lemma lstrip_whitespace (s : str) :
  (forall c, In c s -> isspace c = true) -> lstrip s = [].
Proof.
  induction s as [|c s IH]; intros H; [reflexivity|].
  cbn [lstrip]. rewrite (H c) by (left; reflexivity).
  apply IH. intros x Hx. apply H. right. exact Hx.
Qed.

Lemma strip_whitespace (s : str) :
  (forall c, In c s -> isspace c = true) -> strip s = [].
Proof. intros H. unfold strip. rewrite lstrip_whitespace by exact H. reflexivity. Qed.

Lemma prep_text_whitespace (text_in : str) :
  (forall c, In c text_in -> isspace c = true) -> prep_text text_in = [].
Proof.
  intros H. unfold prep_text. cbv zeta.
  repeat (rewrite (@replace_absent text_in);
          [| discriminate | apply absent_in_whitespace; [exact H | reflexivity]]).
  apply strip_whitespace. intros c Hc.
  apply replace_chars in Hc as [Hc|[<-|[]]]; [|reflexivity].
  apply replace_chars in Hc as [Hc|[<-|[<-|[]]]];
    [apply H, Hc | reflexivity | reflexivity].
Qed.

End Templates.

End ParserFacts.

(** ** The properties of the parser *)

Module Properties.
Import PyStr Re Soup Runs EpubBookParser Spec Samples.
Import PyStrFacts RunsFacts ReFacts ParserFacts.

Section Unicode.
Context {T : TemplateSyntax} {U : UnicodeData}.

(** *** The filtered tree of an html-rooted document *)

Lemma top_strings_are_strings (s : soup) : forallb is_string (top_strings s) = true.
Proof.
  unfold top_strings. induction s as [|n s IH]; [reflexivity|].
  simpl. destruct (is_string n) eqn:E; [simpl; rewrite E|]; exact IH.
Qed.

Lemma decompose_strings (sel : string -> list (string * str) -> bool) (s : soup) :
  forallb is_string s = true -> decompose_all sel s = s.
Proof.
  unfold decompose_all. induction s as [|n s IH]; [reflexivity|].
  simpl. intros H. apply andb_true_iff in H as [Hn H].
  destruct n as [x|x|name attrs kids]; [| |discriminate];
    simpl; rewrite IH by exact H; reflexivity.
Qed.

Lemma blacklist_html_rooted (item : soup) :
  html_rooted item = true -> decompose_all in_blacklist item = top_strings item.
Proof.
  unfold html_rooted, decompose_all, top_strings.
  induction item as [|n item IH]; intros H; [reflexivity|].
  simpl in H. apply andb_true_iff in H as [Hn H]. specialize (IH H).
  destruct n as [x|x|name attrs kids].
  - simpl. rewrite IH. reflexivity.
  - simpl. rewrite IH. reflexivity.
  - apply String.eqb_eq in Hn. subst name.
    cbn [flat_map decompose_in filter is_string].
    assert (E : in_blacklist "html" attrs = true) by reflexivity.
    rewrite E. exact IH.
Qed.

Lemma filter_html_rooted (item : soup) :
  html_rooted item = true -> filter_soup item = top_strings item.
Proof.
  intros H. unfold filter_soup. rewrite (blacklist_html_rooted item H).
  apply decompose_strings, top_strings_are_strings.
Qed.

Lemma find_strings (level : string) (s : soup) :
  forallb is_string s = true -> find level s = None.
Proof.
  unfold find. induction s as [|n s IH]; [reflexivity|].
  simpl. intros H. apply andb_true_iff in H as [Hn H].
  destruct n as [x|x|name attrs kids]; [| |discriminate]; simpl; exact (IH H).
Qed.

Lemma probe_none (levels : list string) (s : soup) :
  (forall level, In level levels -> find level s = None) ->
  probe_title levels s = [].
Proof.
  induction levels as [|l ls IH]; intros H; [reflexivity|].
  simpl. rewrite (H l) by (left; reflexivity).
  apply IH. intros x Hx. apply H. right. exact Hx.
Qed.

(** *** The pipeline on the empty text *)

Lemma clean_text_nil_exact (config : GeneralConfig) (bs : str) :
  valid_mode (newline_mode config) ->
  clean_text config bs [] =
  match parse_template bs with
  | Some _ => Ok []
  | None => Raise bad_template
  end.
Proof.
  intros Hmode. unfold clean_text.
  change (prep_text []) with (@nil char).
  assert (H : collapse_newlines (newline_mode config) bs [] =
              match parse_template bs with
              | Some _ => Ok []
              | None => Raise bad_template
              end).
  { unfold collapse_newlines, re_sub, Re.sub.
    destruct Hmode as [-> | ->]; simpl; destruct (parse_template bs); reflexivity. }
  rewrite H. destruct (parse_template bs); cbn [bind]; [|reflexivity].
  destruct (remove_endnotes config), (startswith (language config) (lit "zh"));
    reflexivity.
Qed.

Lemma clean_text_nil (config : GeneralConfig) (bs : str) :
  valid_mode (newline_mode config) ->
  clean_text config bs [] = Ok []
  \/ clean_text config bs [] = Raise bad_template.
Proof.
  intros Hmode. rewrite (clean_text_nil_exact config bs Hmode).
  destruct (parse_template bs); [left | right]; reflexivity.
Qed.

Lemma clean_text_nil_plain (config : GeneralConfig) (bs : str) :
  valid_mode (newline_mode config) -> ~ In BACKSLASH bs ->
  clean_text config bs [] = Ok [].
Proof.
  intros Hmode Hbs. rewrite (clean_text_nil_exact config bs Hmode).
  rewrite parse_template_plain by exact Hbs. reflexivity.
Qed.

Lemma clean_text_blank (config : GeneralConfig) (bs raw : str) :
  (forall c, In c raw -> isspace c = true) ->
  clean_text config bs raw = clean_text config bs [].
Proof.
  intros H. unfold clean_text. rewrite (@prep_text_whitespace raw H). reflexivity.
Qed.

Lemma sanitize_nil (bs : str) : _sanitize_title [] bs = [].
Proof. destruct bs; reflexivity. Qed.

Lemma chapter_of_blank (config : GeneralConfig) (bs : str) (item : soup) :
  valid_mode (newline_mode config) ->
  probe_title title_levels (filter_soup item) = [] ->
  (forall c, In c (soup_text (filter_soup item)) -> isspace c = true) ->
  chapter_of config bs item =
  match parse_template bs with
  | Some _ => Ok ([], [])
  | None => Raise bad_template
  end.
Proof.
  intros Hmode Hprobe Hws. unfold chapter_of.
  rewrite Hprobe, (clean_text_blank config bs _ Hws).
  rewrite (clean_text_nil_exact config bs Hmode).
  destruct (parse_template bs); cbn [bind]; [|reflexivity].
  cbn [slice_to firstn]. rewrite sanitize_nil. reflexivity.
Qed.

(** C2, amended: in a document whose parsed tree has no element at the top
    but [html], the filtering step deletes every element, because [html] is
    on the excluded-tag list: what is left are the strings that stand beside
    the element, no element is there for the title probe, and the raw text
    is the text of those strings, a line break in the tree of an EPUB item
    and not the empty string.  When that text is whitespace only, the
    document gives the pair of two empty strings under a valid newline mode,
    whenever the break marker is accepted as a replacement template. *)
Theorem html_rooted_document_is_emptied
        (config : GeneralConfig) (bs : str) (item : soup) :
  html_rooted item = true ->
  valid_mode (newline_mode config) ->
  filter_soup item = top_strings item
  /\ (forall level, find level (filter_soup item) = None)
  /\ probe_title title_levels (filter_soup item) = []
  /\ soup_text (filter_soup item) = soup_text (top_strings item)
  /\ ((forall c, In c (soup_text (top_strings item)) -> isspace c = true) ->
      chapter_of config bs item =
      match parse_template bs with
      | Some _ => Ok ([], [])
      | None => Raise bad_template
      end)
  /\ ((forall c, In c (soup_text (top_strings item)) -> isspace c = true) ->
      ~ In BACKSLASH bs -> chapter_of config bs item = Ok ([], [])).
Proof.
  intros Hroot Hmode.
  pose proof (filter_html_rooted item Hroot) as Hf.
  assert (Hfind : forall level, find level (filter_soup item) = None).
  { intros level. rewrite Hf. apply find_strings, top_strings_are_strings. }
  assert (Hprobe : probe_title title_levels (filter_soup item) = [])
    by (apply probe_none; intros level _; apply Hfind).
  assert (Hpair : (forall c, In c (soup_text (top_strings item)) -> isspace c = true) ->
                  chapter_of config bs item =
                  match parse_template bs with
                  | Some _ => Ok ([], [])
                  | None => Raise bad_template
                  end).
  { intros Hws. apply chapter_of_blank; [exact Hmode | exact Hprobe |].
    rewrite Hf. exact Hws. }
  split; [exact Hf|]. split; [exact Hfind|]. split; [exact Hprobe|].
  split; [rewrite Hf; reflexivity|]. split; [exact Hpair|].
  intros Hws Hbs. rewrite (Hpair Hws).
  rewrite parse_template_plain by exact Hbs. reflexivity.
Qed.

(** *** The title probe *)

Lemma find_node (level : string) (n : node) :
  forall rest,
    List.find (is_tag_named level) (descendants n ++ rest) =
    match first_named level n with
    | Some e => Some e
    | None => List.find (is_tag_named level) rest
    end.
Proof.
  induction n as [x|x|name attrs kids IH] using node_nested_ind; intros rest.
  - reflexivity.
  - reflexivity.
  - cbn [descendants first_named app List.find is_tag_named].
    destruct (String.eqb name level); [reflexivity|].
    induction IH as [|k kids Hk _ IHkids]; [reflexivity|].
    cbn [flat_map]. rewrite <- app_assoc, Hk.
    destruct (first_named level k); [reflexivity | exact IHkids].
Qed.

Lemma find_first_of (level : string) (s : soup) : find level s = first_of level s.
Proof.
  unfold find. induction s as [|n s IH]; [reflexivity|].
  cbn [flat_map first_of]. rewrite find_node, IH. reflexivity.
Qed.

Lemma within_descendants (e n : node) : within e n <-> In e (descendants n).
Proof.
  split.
  - induction 1 as [|name attrs kids k Hk _ IH].
    + destruct e; left; reflexivity.
    + cbn [descendants]. right. apply in_flat_map. exists k. split; assumption.
  - revert e. induction n as [x|x|name attrs kids IH] using node_nested_ind;
      intros e He.
    + destruct He as [<-|[]]. constructor.
    + destruct He as [<-|[]]. constructor.
    + destruct He as [<-|He]; [constructor|].
      apply in_flat_map in He as [k [Hk He]].
      rewrite Forall_forall in IH.
      apply within_below with (k := k); [exact Hk | apply (IH k Hk e He)].
Qed.

Lemma occurs_descendants (e : node) (s : soup) :
  occurs e s <-> In e (flat_map descendants s).
Proof.
  unfold occurs. rewrite in_flat_map. split; intros [n [Hn H]]; exists n;
    (split; [exact Hn | apply within_descendants, H]).
Qed.

Lemma find_sound (level : string) (s : soup) (e : node) :
  find level s = Some e -> is_tag_named level e = true /\ occurs e s.
Proof.
  unfold find. intros H. apply find_some in H as [Hin Hp].
  split; [exact Hp | apply occurs_descendants, Hin].
Qed.

Lemma find_complete (level : string) (s : soup) (e : node) :
  occurs e s -> is_tag_named level e = true -> exists e', find level s = Some e'.
Proof.
  intros Hin Hp. unfold find.
  destruct (List.find (is_tag_named level) (flat_map descendants s)) as [e'|] eqn:E;
    [exists e'; reflexivity|].
  apply occurs_descendants in Hin.
  rewrite (find_none _ _ E e Hin) in Hp. discriminate.
Qed.

Lemma probe_title_element (s : soup) :
  probe_title title_levels s =
  match title_element s with
  | Some e => get_text e
  | None => []
  end.
Proof.
  unfold title_levels, title_element. cbn [probe_title].
  rewrite !find_first_of.
  destruct (first_of "title" s); [reflexivity|].
  destruct (first_of "h1" s); [reflexivity|].
  destruct (first_of "h2" s); [reflexivity|].
  destruct (first_of "h3" s); reflexivity.
Qed.

Lemma clean_text_language (config : GeneralConfig) (bs raw text : str) :
  clean_text config bs raw = Ok text ->
  exists before,
    text = if startswith (language config) (lit "zh")
           then despace_cjk sentence_end before else before.
Proof.
  unfold clean_text.
  destruct (collapse_newlines (newline_mode config) bs (prep_text raw)) as [out|];
    cbn [bind]; [|discriminate].
  intros H. injection H as <-. eexists. reflexivity.
Qed.

(** C6, amended: when the configured newline mode is neither [single] nor
    [double] and the book has at least one document item, [get_chapters]
    fails on the first item with the error whose message is
    [Invalid newline mode: ] followed by the mode, and returns no chapter
    pair. *)
Theorem invalid_newline_mode_raises
        (config : GeneralConfig) (bs : str) (item : soup) (rest : list soup) :
  newline_mode config <> lit "single" ->
  newline_mode config <> lit "double" ->
  get_chapters config bs (item :: rest) =
  Raise (ValueError (lit "Invalid newline mode: " ++ newline_mode config)).
Proof.
  intros H1 H2. cbn [EpubBookParser.get_chapters].
  unfold chapter_of, clean_text. rewrite collapse_invalid by assumption.
  reflexivity.
Qed.

(** *** No newline survives *)

Lemma strip_endnotes_chars (s : str) c : In c (strip_endnotes s) -> In c s.
Proof.
  unfold EpubBookParser.strip_endnotes, sub_literal, sub_with. intros H.
  apply sub_from_chars in H as [H|[]]. exact H.
Qed.

Lemma clean_text_no_newline (config : GeneralConfig) (bs raw text : str) :
  clean_text config bs raw = Ok text -> ~ In NL text.
Proof.
  unfold clean_text.
  destruct (collapse_newlines (newline_mode config) bs (prep_text raw)) as [out|];
    cbn [bind]; [|discriminate].
  intros H. injection H as <-.
  assert (H1 : ~ In NL (if remove_endnotes config
                        then strip_endnotes (squash_whitespace out)
                        else squash_whitespace out)).
  { destruct (remove_endnotes config); [|apply squash_no_newline].
    intros H. apply strip_endnotes_chars in H. revert H. apply squash_no_newline. }
  destruct (startswith (language config) _); [|exact H1].
  apply despace_fold_no_newline, H1.
Qed.

Lemma clean_text_plain (config : GeneralConfig) (bs raw : str) :
  valid_mode (newline_mode config) -> ~ In BACKSLASH bs ->
  exists text, clean_text config bs raw = Ok text.
Proof.
  intros Hmode Hbs. unfold clean_text.
  destruct (@collapse_plain T (newline_mode config) bs (prep_text raw) Hmode Hbs) as [out ->].
  cbn [bind]. eexists; reflexivity.
Qed.

(** C5: the title probe asks the filtered tree for [title], then [h1],
    then [h2], then [h3]; each question is answered by the first element of
    that name in the tree, at whatever depth, and is answered whenever the
    tree has such an element; the title is the text of the element of the
    first question answered.  In a document where none is answered, and
    also where that text is empty, the emitted title is the sanitized form
    of the first 60 characters of the chapter text; and the pair is emitted
    under a valid newline mode and a break marker without backslash. *)
Theorem title_resolution (config : GeneralConfig) (bs : str) (item : soup) :
  let s := filter_soup item in
  (forall level, find level s = first_of level s)
  /\ (forall level e,
        find level s = Some e -> is_tag_named level e = true /\ occurs e s)
  /\ (forall level e,
        occurs e s -> is_tag_named level e = true ->
        exists e', find level s = Some e')
  /\ probe_title title_levels s =
     match title_element s with
     | Some e => get_text e
     | None => []
     end
  /\ (forall title text,
        chapter_of config bs item = Ok (title, text) ->
        title = _sanitize_title
                  match probe_title title_levels s with
                  | [] => firstn 60 text
                  | found => found
                  end bs)
  /\ (title_element s = None ->
      forall title text,
        chapter_of config bs item = Ok (title, text) ->
        title = _sanitize_title (firstn 60 text) bs)
  /\ (valid_mode (newline_mode config) -> ~ In BACKSLASH bs ->
      exists title text, chapter_of config bs item = Ok (title, text)).
Proof.
  intros s.
  assert (Htitle : forall title text,
             chapter_of config bs item = Ok (title, text) ->
             title = _sanitize_title
                       match probe_title title_levels s with
                       | [] => firstn 60 text
                       | found => found
                       end bs).
  { intros title text. unfold chapter_of. fold s.
    generalize (probe_title title_levels s). intros p.
    destruct (clean_text config bs (soup_text s)) as [x|]; cbn [bind]; [|discriminate].
    intros H. injection H as E2 E1. subst x title. unfold slice_to.
    destruct p; reflexivity. }
  split; [intros level; apply find_first_of|].
  split; [intros level e; apply find_sound|].
  split; [intros level e; apply find_complete|].
  split; [apply probe_title_element|].
  split; [exact Htitle|].
  split.
  - intros Hnone title text H. rewrite (Htitle title text H).
    rewrite probe_title_element, Hnone. reflexivity.
  - intros Hmode Hbs. unfold chapter_of. fold s.
    destruct (@clean_text_plain config bs (soup_text s) Hmode Hbs) as [x ->].
    cbn [bind]. eexists. eexists. reflexivity.
Qed.

(** C7: under a valid configuration the text of every chapter pair that
    [get_chapters] emits has no newline character; and with a break marker
    that has no backslash it does emit the pairs. *)
Theorem no_newline_in_chapter_text
        (config : GeneralConfig) (bs : str) (book : list soup) :
  valid_mode (newline_mode config) ->
  (forall chapters,
      get_chapters config bs book = Ok chapters ->
      forall title text, In (title, text) chapters -> ~ In NL text)
  /\ (~ In BACKSLASH bs ->
      exists chapters, get_chapters config bs book = Ok chapters
                       /\ length chapters = length book).
Proof.
  intros Hmode. split.
  - induction book as [|item rest IH]; intros chapters.
    + intros H. injection H as <-. intros title text [].
    + cbn [EpubBookParser.get_chapters].
      destruct (chapter_of config bs item) as [[t x]|] eqn:E; cbn [bind]; [|discriminate].
      destruct (get_chapters config bs rest) as [chs|]; cbn [bind]; [|discriminate].
      intros H. injection H as <-. intros title text [H|H].
      * injection H as <- <-. unfold chapter_of in E.
        destruct (clean_text config bs (soup_text (filter_soup item))) as [y|] eqn:Ey;
          cbn [bind] in E; [|discriminate].
        injection E as _ <-. apply (clean_text_no_newline _ _ _ Ey).
      * apply (IH chs eq_refl title text H).
  - intros Hbs. induction book as [|item rest [chs [IH Hlen]]].
    + exists []. split; reflexivity.
    + cbn [EpubBookParser.get_chapters]. unfold chapter_of.
      destruct (@clean_text_plain config bs (soup_text (filter_soup item)) Hmode Hbs) as [x ->].
      cbn [bind]. rewrite IH. cbn [bind]. eexists. split; [reflexivity|].
      simpl. rewrite Hlen. reflexivity.
Qed.

(** *** The end-to-end scenario *)

(** C1: on the document [<h1>Chapter One</h1><p>He said--"Hello;there."</p>]
    as lxml parses it, with mode [single], endnote removal off and language
    [en], the filtering step leaves nothing of the tree, since its root is
    the [html] element of the excluded-tag list, and [get_chapters] emits
    the pair of two empty strings whenever the break marker is accepted as a
    replacement template; so it does when the markup comes as a whole page,
    with a head and a line break beside the [html] element.  It never emits
    the title [Chapter_One] with the text [He said, "Hello, there."]. *)
Theorem chapter_one_document_is_emptied (bs : str) :
  filter_soup (lxml_document chapter_one_body) = []
  /\ get_chapters config_en bs [lxml_document chapter_one_body] =
     match parse_template bs with
     | Some _ => Ok [([], [])]
     | None => Raise bad_template
     end
  /\ get_chapters config_en bs [chapter_one_item] =
     match parse_template bs with
     | Some _ => Ok [([], [])]
     | None => Raise bad_template
     end
  /\ get_chapters config_en bs [lxml_document chapter_one_body]
     <> Ok [(lit "Chapter_One", chapter_one_text)]
  /\ get_chapters config_en bs [chapter_one_item]
     <> Ok [(lit "Chapter_One", chapter_one_text)].
Proof.
  assert (E : get_chapters config_en bs [lxml_document chapter_one_body] =
              match parse_template bs with
              | Some _ => Ok [([], [])]
              | None => Raise bad_template
              end).
  { cbn [EpubBookParser.get_chapters].
    rewrite (@chapter_of_blank config_en bs (lxml_document chapter_one_body));
      [| left; reflexivity | reflexivity | intros c []].
    destruct (parse_template bs); reflexivity. }
  assert (E' : get_chapters config_en bs [chapter_one_item] =
               match parse_template bs with
               | Some _ => Ok [([], [])]
               | None => Raise bad_template
               end).
  { cbn [EpubBookParser.get_chapters].
    rewrite (@chapter_of_blank config_en bs chapter_one_item);
      [| left; reflexivity | reflexivity | intros c [<-|[]]; reflexivity].
    destruct (parse_template bs); reflexivity. }
  split; [reflexivity|]. split; [exact E|]. split; [exact E'|].
  rewrite E, E'. split; destruct (parse_template bs); discriminate.
Qed.

(** *** Newline runs *)

(** C3, amended: for every input text and every break marker without a
    backslash, mode [single] replaces each maximal run of one or more
    newlines of the stripped text by one break marker, mode [double]
    replaces exactly the maximal runs of two or more and leaves a single
    newline in place; the whitespace squash then turns every maximal run of
    whitespace, a remaining single newline being whitespace, into one
    space. *)
Theorem newline_runs_collapse (bs raw : str) (pcs : list piece) :
  ~ In BACKSLASH bs ->
  maximal_runs is_nl pcs = true ->
  strip raw = text_of pcs ->
  collapse_newlines (lit "single") bs raw = Ok (replace_runs 0 bs pcs)
  /\ collapse_newlines (lit "double") bs raw = Ok (replace_runs 1 bs pcs)
  /\ (forall wpcs,
         maximal_runs isspace wpcs = true ->
         squash_whitespace (text_of wpcs) = replace_runs 0 (lit " ") wpcs)
  /\ isspace NL = true.
Proof.
  intros Hbs Hpcs Hraw. unfold collapse_newlines.
  change (str_eqb (lit "single") (lit "single")) with true.
  change (str_eqb (lit "double") (lit "single")) with false.
  change (str_eqb (lit "double") (lit "double")) with true. cbv iota.
  rewrite !re_sub_plain by exact Hbs. rewrite Hraw. unfold sub_literal.
  rewrite !sub_many_runs by exact Hpcs.
  repeat split. intros wpcs Hw. unfold squash_whitespace, sub_literal.
  apply sub_many_runs, Hw.
Qed.

(** *** Endnote numbers *)

Lemma lead_not_digit (c : char) : is_digit c = true -> endnote_lead c = false.
Proof.
  unfold EpubBookParser.is_digit. intros H.
  assert (Hc : (48 <= c <= 57 \/ 0x660 <= c)%N).
  { destruct (N.ltb_spec c 0x660) as [Hlt|Hge]; [left | right; exact Hge].
    unfold is_asciidigit, in_range in H.
    apply andb_true_iff in H as [H1 H2].
    apply N.leb_le in H1, H2. split; assumption. }
  clear H. unfold endnote_lead, is_asciiletter, in_range. cbn [existsb].
  repeat rewrite orb_false_iff.
  repeat split;
    try (apply N.eqb_neq; lia); try reflexivity;
    apply andb_false_iff;
    destruct Hc as [[H1 H2]|H];
    first [ left; apply N.leb_gt; lia | right; apply N.leb_gt; lia ].
Qed.

(** C4, amended: with endnote removal enabled, the stripping step removes a
    maximal run of decimal digits if and only if the run comes right after
    an ASCII letter, a period, comma, exclamation mark, question mark,
    semicolon, double quote, closing parenthesis, or one of the three
    characters U+0432, U+0496, U+049B of the corrupted closing quote; every
    other digit run, and everything that is not a digit, is kept as it
    is. *)
Theorem endnote_runs_removed (pcs : list piece) :
  maximal_runs is_digit pcs = true ->
  strip_endnotes (text_of pcs) = drop_runs_after endnote_lead None pcs
  /\ (forall c,
         endnote_lead c = true <->
         is_asciiletter c = true
         \/ In c [46; 44; 33; 63; 59; 0x432; 0x496; 0x49B; 34; 41]%N).
Proof.
  intros H. split.
  - unfold EpubBookParser.strip_endnotes, sub_literal, sub_with.
    apply sub_behind_runs; [apply lead_not_digit | exact H].
  - intros c. unfold endnote_lead. rewrite orb_true_iff, existsb_exists.
    split; (intros [Hl|Hr]; [left; exact Hl | right]).
    + destruct Hr as [x [Hx E]]. apply N.eqb_eq in E. subst x. exact Hx.
    + exists c. split; [exact Hr | apply N.eqb_refl].
Qed.

(** *** The title sanitizer *)

Lemma filter_id (A : Type) (f : A -> bool) (l : list A) :
  (forall x, In x l -> f x = true) -> filter f l = l.
Proof.
  induction l as [|x l IH]; intros H; [reflexivity|]. simpl.
  rewrite (H x) by (left; reflexivity). rewrite IH; [reflexivity|].
  intros y Hy; apply H; right; exact Hy.
Qed.

Lemma delete_not_word_or_space (s : str) :
  sub_literal (Class not_word_or_space) [] s =
  filter (fun c => is_word c || isspace c) s.
Proof.
  unfold sub_literal, sub_with. rewrite sub_class_delete.
  apply filter_ext. intros c. unfold not_word_or_space. apply negb_involutive.
Qed.

Lemma sanitize_chars (title bs : str) c :
  In c (_sanitize_title title bs) -> is_word c = true /\ isspace c = false.
Proof.
  unfold EpubBookParser._sanitize_title, sub_literal at 1, sub_with. intros H.
  apply sub_many_chars in H; [|intros x []].
  destruct H as [[<-|[]]|[H Hsp]]; [split; reflexivity|].
  split; [|exact Hsp]. apply strip_chars in H.
  rewrite delete_not_word_or_space in H. apply filter_In in H as [_ H].
  rewrite Hsp, orb_false_r in H. exact H.
Qed.

Lemma marker_absent (title bs : str) :
  (exists c, In c bs /\ is_word c = false) ->
  contains (_sanitize_title title bs) bs = false.
Proof.
  intros [c [Hc Hw]].
  destruct (contains (_sanitize_title title bs) bs) eqn:E; [|reflexivity].
  apply (contains_incl _ _ c E) in Hc. apply sanitize_chars in Hc as [Hc _].
  congruence.
Qed.

(** C8, amended: [_sanitize_title] replaces every occurrence of the break
    marker by one space, removes every character that is neither a word
    character nor whitespace, strips the whitespace at both ends and turns
    each remaining maximal run of whitespace into one underscore;
    underscores of the title itself stay, also at the ends.  Its output is
    made of word characters only, none of them whitespace, so it has no
    path-unsafe punctuation, and it has no occurrence of a break marker that
    has a character which is not a word character. *)
Theorem sanitize_title_steps (title bs : str) :
  (forall pcs,
      maximal_runs isspace pcs = true ->
      strip (filter (fun c => is_word c || isspace c)
                    (replace title bs (lit " "))) = text_of pcs ->
      _sanitize_title title bs = replace_runs 0 (lit "_") pcs)
  /\ (forall c, In c (_sanitize_title title bs) ->
                is_word c = true /\ isspace c = false)
  /\ (forall c, In c path_unsafe -> ~ In c (_sanitize_title title bs))
  /\ ((exists c, In c bs /\ is_word c = false) ->
      contains (_sanitize_title title bs) bs = false).
Proof.
  split; [|split; [|split]].
  - intros pcs Hpcs Hcut. unfold EpubBookParser._sanitize_title.
    rewrite delete_not_word_or_space, Hcut. unfold sub_literal.
    apply sub_many_runs, Hpcs.
  - intros c. apply sanitize_chars.
  - intros c Hc Hin. apply sanitize_chars in Hin as [Hw _].
    simpl in Hc.
    repeat (destruct Hc as [<-|Hc]; [vm_compute in Hw; discriminate Hw|]).
    exact Hc.
  - apply marker_absent.
Qed.

(** C9, amended: sanitizing a sanitized title again gives the same string
    whenever the break marker does not occur in the sanitized title; that is
    so for every marker with a character that is not a word character. *)
Theorem sanitize_title_idempotent (title bs : str) :
  contains (_sanitize_title title bs) bs = false ->
  _sanitize_title (_sanitize_title title bs) bs = _sanitize_title title bs.
Proof.
  intros Hocc. set (r := _sanitize_title title bs) in *.
  assert (Hne : bs <> []).
  { intros ->. rewrite contains_nil in Hocc. discriminate. }
  assert (Hr : forall c, In c r -> is_word c = true /\ isspace c = false)
    by (intros c; apply sanitize_chars).
  unfold EpubBookParser._sanitize_title at 1.
  rewrite replace_absent by assumption.
  rewrite delete_not_word_or_space.
  rewrite filter_id by (intros c Hc; destruct (Hr c Hc) as [-> _]; reflexivity).
  rewrite strip_no_space by (intros c Hc; apply (Hr c Hc)).
  unfold sub_literal, sub_with. rewrite <- (app_nil_r r) at 1.
  rewrite many_gap by (intros c Hc; apply (Hr c Hc)).
  apply app_nil_r.
Qed.

End Unicode.

(** *** The CJK step on the segments of a text *)

Section Sentences.
Variable ends : char -> bool.

Lemma well_cut_inv (first : str) (rest : list (char * str)) :
  well_cut ends first rest = true ->
  (forall c, In c first -> ends c = false)
  /\ Forall (fun p => ends (fst p) = true
                      /\ forall c, In c (snd p) -> ends c = false) rest.
Proof.
  unfold well_cut. intros H. apply andb_true_iff in H as [H1 H2]. split.
  - intros c Hc. apply negb_true_iff.
    apply (forallb_In (fun c => negb (ends c)) first); assumption.
  - apply Forall_forall. intros p Hp.
    apply (forallb_In _ _ _ H2) in Hp. apply andb_true_iff in Hp as [Ha Hb].
    split; [exact Ha|]. intros c Hc. apply negb_true_iff.
    apply (forallb_In (fun c => negb (ends c)) (snd p)); assumption.
Qed.

Lemma split_assemble (rest : list (char * str)) :
  forall first prev cur,
    (forall c, In c first -> ends c = false) ->
    Forall (fun p => ends (fst p) = true
                     /\ forall c, In c (snd p) -> ends c = false) rest ->
    split_from (Class ends) prev 0 cur (assemble first rest) =
    (rev cur ++ first) :: map snd rest.
Proof.
  induction rest as [|[sep seg] rest IH]; intros first prev cur Hfirst Hrest;
    unfold assemble; rewrite split_class_piece by exact Hfirst.
  - cbn [flat_map split_from map]. rewrite rev_app_distr, rev_involutive.
    reflexivity.
  - inversion Hrest as [|x l [Hsep Hseg] Hrest']; subst. cbn [fst snd] in *.
    cbn [flat_map fst snd app split_from match_at]. rewrite Hsep.
    rewrite rev_app_distr, rev_involutive. f_equal.
    change (seg ++ flat_map (fun p => fst p :: snd p) rest)
      with (assemble seg rest).
    rewrite IH by assumption. reflexivity.
Qed.

Lemma replace_assemble (old new : str) (rest : list (char * str)) :
  old <> [] -> (forall c, In c old -> ends c = false) ->
  Forall (fun p => ends (fst p) = true
                   /\ forall c, In c (snd p) -> ends c = false) rest ->
  forall first,
    replace (assemble first rest) old new =
    assemble (replace first old new)
             (map_segments (fun s => replace s old new) rest).
Proof.
  intros Hne Hold. induction 1 as [|[sep seg] rest [Hsep Hseg] Hrest IH];
    intros first; unfold assemble.
  - cbn [flat_map map_segments map]. rewrite !app_nil_r. reflexivity.
  - cbn [flat_map map_segments map fst snd app] in *.
    rewrite replace_cut; [|exact Hne|].
    + f_equal. f_equal. apply (IH seg).
    + intros Hin. apply Hold in Hin. congruence.
Qed.

Lemma has_cjk_absent (x s : str) :
  has_cjk s = true -> has_cjk x = false -> contains x s = false.
Proof.
  intros Hs Hx. destruct (contains x s) eqn:E; [|reflexivity].
  apply existsb_exists in Hs as [c [Hc Hcjk]].
  apply (contains_incl _ _ c E) in Hc.
  assert (has_cjk x = true) by (apply existsb_exists; exists c; split; assumption).
  congruence.
Qed.

Lemma despace_step_assemble (sentence : str) (first : str)
      (rest : list (char * str)) :
  (forall c, In c sentence -> ends c = false) ->
  Forall (fun p => ends (fst p) = true
                   /\ forall c, In c (snd p) -> ends c = false) rest ->
  despace_step (assemble first rest) sentence =
  assemble (despace_step first sentence)
           (map_segments (fun s => despace_step s sentence) rest).
Proof.
  intros Hs Hrest. rewrite despace_step_eq.
  destruct (has_cjk sentence) eqn:E.
  - rewrite replace_assemble; try assumption; [|apply has_cjk_nonempty, E].
    rewrite despace_step_eq, E. f_equal. apply map_ext.
    intros p. rewrite despace_step_eq, E. reflexivity.
  - rewrite despace_step_eq, E. f_equal. unfold map_segments.
    rewrite <- (map_id rest) at 1. apply map_ext.
    intros [sep seg]. rewrite despace_step_eq, E. reflexivity.
Qed.

Lemma despace_step_cut (sentence : str) (rest : list (char * str)) :
  (forall c, In c sentence -> ends c = false) ->
  Forall (fun p => ends (fst p) = true
                   /\ forall c, In c (snd p) -> ends c = false) rest ->
  Forall (fun p => ends (fst p) = true
                   /\ forall c, In c (snd p) -> ends c = false)
         (map_segments (fun s => despace_step s sentence) rest).
Proof.
  intros Hs Hrest. unfold map_segments. apply Forall_map.
  apply Forall_impl with (2 := Hrest). intros [sep seg] [H1 H2]. cbn [fst snd] in *.
  split; [exact H1|]. intros c Hc. rewrite despace_step_eq in Hc.
  destruct (has_cjk sentence); [|apply H2, Hc].
  apply replace_chars in Hc as [Hc|Hc]; [apply H2, Hc|].
  apply Hs. unfold remove_whitespace in Hc. apply filter_In in Hc as [Hc _]. exact Hc.
Qed.

Lemma despace_fold_assemble (sentences : list str) :
  Forall (fun s => forall c, In c s -> ends c = false) sentences ->
  forall first rest,
    Forall (fun p => ends (fst p) = true
                     /\ forall c, In c (snd p) -> ends c = false) rest ->
    fold_left despace_step sentences (assemble first rest) =
    assemble (fold_left despace_step sentences first)
             (map_segments (fold_left despace_step sentences) rest).
Proof.
  induction 1 as [|s sentences Hs _ IH]; intros first rest Hrest.
  - cbn [fold_left]. unfold map_segments. f_equal.
    rewrite <- (map_id rest) at 1. apply map_ext. intros [sep seg]. reflexivity.
  - cbn [fold_left]. rewrite despace_step_assemble by assumption.
    rewrite IH by (apply despace_step_cut; assumption).
    f_equal. unfold map_segments. rewrite map_map. reflexivity.
Qed.

End Sentences.

(** A segment without CJK character is never touched. *)
Lemma despace_fold_no_cjk (sentences : list str) (x : str) :
  has_cjk x = false -> fold_left despace_step sentences x = x.
Proof.
  intros Hx. induction sentences as [|s rest IH]; [reflexivity|].
  cbn [fold_left]. rewrite despace_step_eq.
  destruct (has_cjk s) eqn:E; [|exact IH].
  rewrite replace_absent; [exact IH | apply has_cjk_nonempty, E |].
  apply has_cjk_absent; assumption.
Qed.

(** A text without whitespace is never touched either. *)
Lemma despace_step_clean (y s : str) :
  (forall c, In c y -> isspace c = false) -> despace_step y s = y.
Proof.
  intros Hy. rewrite despace_step_eq. destruct (has_cjk s) eqn:E; [|reflexivity].
  pose proof (@has_cjk_nonempty s E) as Hne.
  destruct (contains y s) eqn:Ec; [|apply replace_absent; assumption].
  rewrite remove_whitespace_id; [apply replace_same, Hne|].
  intros c Hc. apply Hy. apply (contains_incl _ _ c Ec Hc).
Qed.

Lemma despace_fold_clean (sentences : list str) (y : str) :
  (forall c, In c y -> isspace c = false) ->
  fold_left despace_step sentences y = y.
Proof.
  intros Hy. induction sentences as [|s rest IH]; [reflexivity|].
  cbn [fold_left]. rewrite despace_step_clean by exact Hy. exact IH.
Qed.

Lemma despace_fold_cjk (sentences : list str) (x : str) :
  has_cjk x = true -> collision_free sentences x = true -> In x sentences ->
  fold_left despace_step sentences x = remove_whitespace x.
Proof.
  intros Hx. induction sentences as [|s rest IH]; intros Hfree Hin; [destruct Hin|].
  cbn [collision_free forallb] in Hfree. apply andb_true_iff in Hfree as [Hs Hfree].
  cbn [fold_left]. rewrite despace_step_eq.
  destruct (has_cjk s) eqn:E.
  - destruct (str_eqb s x) eqn:Eq.
    + apply str_eqb_eq in Eq. subst s.
      rewrite replace_self by (apply has_cjk_nonempty, Hx).
      apply despace_fold_clean. intros c. apply remove_whitespace_clean.
    + cbn [negb orb] in Hs. apply negb_true_iff in Hs.
      rewrite replace_absent; [| apply has_cjk_nonempty, E | exact Hs].
      apply IH; [exact Hfree|]. destruct Hin as [->|Hin]; [|exact Hin].
      rewrite (proj2 (str_eqb_eq x x) eq_refl) in Eq. discriminate.
  - apply IH; [exact Hfree|]. destruct Hin as [->|Hin]; [congruence | exact Hin].
Qed.

(** Every text is the assembly of its cut. *)
Lemma cut_assemble (ends : char -> bool) (s : str) :
  assemble (fst (cut ends s)) (snd (cut ends s)) = s.
Proof.
  unfold assemble. induction s as [|c s IH]; [reflexivity|].
  cbn [cut]. destruct (cut ends s) as [first rest]. cbn [fst snd] in IH.
  destruct (ends c); cbn [fst snd flat_map app]; rewrite IH; reflexivity.
Qed.

Lemma cut_well_cut (ends : char -> bool) (s : str) :
  well_cut ends (fst (cut ends s)) (snd (cut ends s)) = true.
Proof.
  unfold well_cut. induction s as [|c s IH]; [reflexivity|].
  cbn [cut]. destruct (cut ends s) as [first rest]. cbn [fst snd] in IH.
  apply andb_true_iff in IH as [H1 H2].
  destruct (ends c) eqn:E; cbn [fst snd forallb]; rewrite ?E, ?H1, ?H2; reflexivity.
Qed.

(** C10, amended: the CJK step splits the text at the characters of its
    sentence-end class and puts, in the place of every segment, what the
    replacements of the loop make of that segment; a segment without CJK
    character is left untouched, and a segment with a CJK character in which
    no other segment with a CJK character occurs loses all its
    whitespace. *)
Theorem despace_cjk_segments
        (ends : char -> bool) (first : str) (rest : list (char * str)) :
  well_cut ends first rest = true ->
  let segments := first :: map snd rest in
  let image := fold_left despace_step segments in
  split (Class ends) (assemble first rest) = segments
  /\ despace_cjk ends (assemble first rest) =
     assemble (image first) (map_segments image rest)
  /\ (forall seg, In seg segments -> has_cjk seg = false -> image seg = seg)
  /\ (forall seg,
         In seg segments -> has_cjk seg = true ->
         collision_free segments seg = true ->
         image seg = remove_whitespace seg).
Proof.
  intros Hcut segments image.
  apply well_cut_inv in Hcut as [Hfirst Hrest].
  assert (Hsplit : split (Class ends) (assemble first rest) = segments).
  { unfold split. rewrite split_assemble by assumption. reflexivity. }
  split; [exact Hsplit|]. split; [|split].
  - unfold despace_cjk. rewrite Hsplit. apply (@despace_fold_assemble ends); [|exact Hrest].
    constructor; [exact Hfirst|]. apply Forall_map.
    apply Forall_impl with (2 := Hrest). intros p [_ H]. exact H.
  - intros seg _ Hseg. apply despace_fold_no_cjk, Hseg.
  - intros seg Hin Hseg Hfree. apply despace_fold_cjk; assumption.
Qed.


(** *** The properties at sample inputs *)

Lemma chapter_one_document_is_emptied_witness :
  get_chapters (T := zero_only) (U := plain) config_en BRK
               [lxml_document chapter_one_body] = Ok [([], [])].
Proof.
  destruct (@chapter_one_document_is_emptied zero_only plain BRK) as (_ & H & _).
  exact H.
Defined.

(** C2 as stated fails: in the tree of an EPUB item a line break stands
    beside the [html] element; it survives the filter and is the raw text,
    which is not the empty string. *)
Lemma line_break_is_raw_text :
  html_rooted chapter_one_item = true
  /\ soup_text (filter_soup chapter_one_item) = [NL]
  /\ soup_text (filter_soup chapter_one_item) <> [].
Proof. split; [reflexivity|]. split; [reflexivity | discriminate]. Qed.

Lemma html_rooted_document_is_emptied_witness :
  html_rooted chapter_one_item = true
  /\ filter_soup chapter_one_item =
     [SpecialString (lit "html"); NavigableString [NL]]
  /\ chapter_of (T := zero_only) (U := plain) config_en BRK chapter_one_item =
     Ok ([], []).
Proof.
  destruct (@html_rooted_document_is_emptied zero_only plain
              config_en BRK chapter_one_item
              eq_refl (or_introl eq_refl)) as (Hf & _ & _ & _ & _ & H).
  split; [reflexivity|]. split; [exact Hf|].
  apply H; [|no_backslash].
  intros c [<-|[]]. reflexivity.
Defined.

(** C3 as stated fails: a break marker made of a backslash and the letter n
    is read as a template; the run is replaced by a newline, not by the
    marker. *)
Lemma backslash_marker_not_inserted :
  collapse_newlines (T := zero_only) (lit "single") [BACKSLASH; 110%N] [97; NL; 98]%N
  <> Ok (replace_runs 0 [BACKSLASH; 110%N]
                      (runs is_nl (strip [97; NL; 98]%N))).
Proof. vm_compute. discriminate. Qed.

Lemma newline_runs_collapse_witness :
  collapse_newlines (T := zero_only) (lit "single") BRK [97; NL; NL; 98; NL; 99]%N =
  Ok ([97%N] ++ BRK ++ [98%N] ++ BRK ++ [99%N])
  /\ collapse_newlines (T := zero_only) (lit "double") BRK [97; NL; NL; 98; NL; 99]%N =
     Ok ([97%N] ++ BRK ++ [98; NL; 99]%N).
Proof.
  destruct (@newline_runs_collapse zero_only BRK [97; NL; NL; 98; NL; 99]%N
              (runs is_nl [97; NL; NL; 98; NL; 99]%N))
    as (H1 & H2 & _); [no_backslash | reflexivity | reflexivity |].
  split; [exact H1 | exact H2].
Defined.

(** C4 as stated fails: a digit run right after a closing parenthesis is
    removed, though
    the specification does not list the parenthesis. *)
Lemma digits_after_parenthesis_removed :
  strip_endnotes (U := plain) (lit "(a)12")
  <> drop_runs_after endnote_lead_spec None
                     (runs (is_digit (U := plain)) (lit "(a)12")).
Proof. vm_compute. discriminate. Qed.

Lemma endnote_runs_removed_witness :
  strip_endnotes (U := plain) (lit "end.12 x)3 4 56") = lit "end. x) 4 56".
Proof.
  destruct (@endnote_runs_removed plain
              (runs (is_digit (U := plain)) (lit "end.12 x)3 4 56")) eq_refl)
    as [H _].
  exact H.
Defined.

Lemma title_resolution_witness :
  probe_title title_levels (filter_soup nested_headings) = lit "Deep"
  /\ chapter_of (T := zero_only) (U := plain) config_en BRK long_paragraph =
     Ok (lit "It_was_a_bright_cold_day_in_April_and_the_clocks_were_striki",
         lit "It was a bright cold day in April and the clocks were striking thirteen.")
  /\ lit "It_was_a_bright_cold_day_in_April_and_the_clocks_were_striki" =
     _sanitize_title (U := plain)
       (firstn 60
          (lit "It was a bright cold day in April and the clocks were striking thirteen."))
       BRK.
Proof.
  destruct (@title_resolution zero_only plain config_en BRK nested_headings)
    as (_ & _ & _ & Hp & _).
  destruct (@title_resolution zero_only plain config_en BRK long_paragraph)
    as (_ & _ & _ & _ & _ & Hf & _).
  assert (E : chapter_of (T := zero_only) (U := plain) config_en BRK long_paragraph =
              Ok (lit "It_was_a_bright_cold_day_in_April_and_the_clocks_were_striki",
                  lit "It was a bright cold day in April and the clocks were striking thirteen."))
    by (vm_compute; reflexivity).
  split; [rewrite Hp; reflexivity|]. split; [exact E|].
  exact (Hf eq_refl _ _ E).
Defined.

(** C6 as stated fails: with no document item the loop body never runs and
    nothing is raised. *)
Lemma no_document_no_error :
  get_chapters (T := zero_only) (U := plain) config_bad BRK []
  <> Raise (ValueError (lit "Invalid newline mode: " ++ newline_mode config_bad)).
Proof. discriminate. Qed.

Lemma invalid_newline_mode_raises_witness :
  get_chapters (T := zero_only) (U := plain) config_bad BRK
               [chapter_one_body; lxml_document chapter_one_body] =
  Raise (ValueError (lit "Invalid newline mode: triple")).
Proof.
  apply (@invalid_newline_mode_raises zero_only plain config_bad BRK);
    discriminate.
Defined.

Lemma no_newline_in_chapter_text_witness :
  ~ In NL (lit "Chapter One" ++ chapter_one_text).
Proof.
  destruct (@no_newline_in_chapter_text zero_only plain config_en BRK
              [chapter_one_body] (or_introl eq_refl)) as [H _].
  apply (H [(lit "Chapter_One", lit "Chapter One" ++ chapter_one_text)] eq_refl
           (lit "Chapter_One")).
  left. reflexivity.
Defined.

(** C8 as stated fails: an underscore at the head of the title survives,
    where the steps of the specification strip it; and a marker made of word
    characters can occur in the output. *)
Lemma leading_underscore_kept :
  _sanitize_title (U := plain) (lit "_a") BRK
  <> sanitize_title_spec (U := plain) (lit "_a") BRK
  /\ contains (_sanitize_title (U := plain) (lit "a.b") (lit "ab")) (lit "ab") = true.
Proof. split; [vm_compute; discriminate | reflexivity]. Qed.

Lemma sanitize_title_steps_witness :
  _sanitize_title (U := plain) (lit " Hello,  World! @BRK#_x ") BRK =
  lit "Hello_World__x".
Proof.
  destruct (@sanitize_title_steps plain (lit " Hello,  World! @BRK#_x ") BRK)
    as [H _].
  apply (H (runs isspace (lit "Hello  World _x"))); reflexivity.
Defined.

(** C9 as stated fails: with the marker [ab] the title [a.b] sanitizes to
    [ab], and that to the empty string. *)
Lemma word_marker_not_idempotent :
  _sanitize_title (U := plain) (_sanitize_title (U := plain) (lit "a.b") (lit "ab")) (lit "ab")
  <> _sanitize_title (U := plain) (lit "a.b") (lit "ab").
Proof. vm_compute. discriminate. Qed.

Lemma sanitize_title_idempotent_witness :
  _sanitize_title (U := plain) (lit "Hello_World__x") BRK = lit "Hello_World__x".
Proof.
  apply (@sanitize_title_idempotent plain (lit " Hello,  World! @BRK#_x ") BRK).
  reflexivity.
Defined.

(** C10 as stated fails: the first segment occurs inside the second; once it
    is replaced there the second is no longer found, and keeps its other
    spaces. *)
Lemma repeated_segment_keeps_spaces :
  split (Class sentence_end) (assemble seg1 [(ge, seg2)]) = [seg1; seg2]
  /\ has_cjk seg2 = true
  /\ despace_cjk sentence_end (assemble seg1 [(ge, seg2)])
     <> assemble (remove_whitespace seg1) [(ge, remove_whitespace seg2)].
Proof.
  split; [reflexivity|]. split; [reflexivity|]. vm_compute. discriminate.
Qed.

Lemma despace_cjk_segments_witness :
  despace_cjk sentence_end (assemble seg2 [(ge, lit "hello world")]) =
  assemble (remove_whitespace seg2) [(ge, lit "hello world")].
Proof.
  destruct (@despace_cjk_segments sentence_end seg2 [(ge, lit "hello world")]
              eq_refl) as (_ & H & Hkeep & Hclean).
  rewrite H. unfold map_segments. cbn [map fst snd] in Hclean, Hkeep |- *.
  rewrite (Hclean seg2 (or_introl eq_refl) eq_refl eq_refl).
  rewrite (Hkeep (lit "hello world") (or_intror (or_introl eq_refl)) eq_refl).
  reflexivity.
Defined.

(** The full stop U+3002 is not in the class of the split as the source file
    has it: the text stays one segment, and a Latin sentence after the full
    stop loses its spaces with the rest. *)
Example ideographic_full_stop_does_not_split :
  split (Class sentence_end) ([zhong; SP; zhong; 0x3002]%N ++ lit "a b") =
  [[zhong; SP; zhong; 0x3002]%N ++ lit "a b"]
  /\ despace_cjk sentence_end ([zhong; SP; zhong; 0x3002]%N ++ lit "a b") =
     [zhong; zhong; 0x3002]%N ++ lit "ab".
Proof. split; reflexivity. Qed.

End Properties.

(** ** What else the code shows *)

Module Behaviour.
Import PyStr Re Soup Runs EpubBookParser Spec Samples Config Shape.
Import PyStrFacts RunsFacts ReFacts ParserFacts.

(** *** The filtered tree *)

Lemma decompose_in_origin (sel : string -> list (string * str) -> bool) :
  forall n t,
    In t (flat_map descendants (decompose_in sel n)) ->
    selected sel t = false
    /\ exists o, In o (descendants n) /\ same_node t o.
Proof.
  induction n as [s|s|name attrs kids IH] using node_nested_ind; intros t Ht.
  - destruct Ht as [<-|[]]. split; [reflexivity|].
    exists (NavigableString s). split; [left; reflexivity | reflexivity].
  - destruct Ht as [<-|[]]. split; [reflexivity|].
    exists (SpecialString s). split; [left; reflexivity | reflexivity].
  - cbn [decompose_in] in Ht. destruct (sel name attrs) eqn:E; [destruct Ht|].
    cbn [flat_map descendants app] in Ht. rewrite app_nil_r in Ht.
    destruct Ht as [<-|Ht].
    + split; [exact E|]. exists (Tag name attrs kids).
      split; [left; reflexivity | split; reflexivity].
    + apply in_flat_map in Ht as [k' [Hk' Ht]].
      apply in_flat_map in Hk' as [k [Hk Hk']].
      rewrite Forall_forall in IH.
      destruct (IH k Hk t) as [Hsel [o [Ho Hsame]]].
      { apply in_flat_map. exists k'. split; assumption. }
      split; [exact Hsel|]. exists o. split; [|exact Hsame].
      right. apply in_flat_map. exists k. split; assumption.
Qed.

Lemma decompose_all_origin (sel : string -> list (string * str) -> bool)
      (s : soup) (t : node) :
  In t (flat_map descendants (decompose_all sel s)) ->
  selected sel t = false
  /\ exists o, In o (flat_map descendants s) /\ same_node t o.
Proof.
  unfold decompose_all. intros Ht.
  apply in_flat_map in Ht as [k' [Hk' Ht]].
  apply in_flat_map in Hk' as [k [Hk Hk']].
  destruct (@decompose_in_origin sel k t) as [Hsel [o [Ho Hsame]]].
  { apply in_flat_map. exists k'. split; assumption. }
  split; [exact Hsel|]. exists o. split; [|exact Hsame].
  apply in_flat_map. exists k. split; assumption.
Qed.

Lemma same_node_selected (sel : string -> list (string * str) -> bool)
      (t o : node) :
  same_node t o -> selected sel t = selected sel o.
Proof.
  destruct t, o; simpl; try tauto. intros [-> ->]. reflexivity.
Qed.

Lemma decompose_in_free (sel : string -> list (string * str) -> bool) :
  forall n,
    (forall t, In t (descendants n) -> selected sel t = false) ->
    decompose_in sel n = [n].
Proof.
  induction n as [s|s|name attrs kids IH] using node_nested_ind; intros H;
    [reflexivity | reflexivity |].
  cbn [decompose_in].
  assert (E : sel name attrs = false) by (apply (H (Tag name attrs kids)); left; reflexivity).
  rewrite E. do 2 f_equal.
  assert (Hk : forall k, In k kids ->
               forall t, In t (descendants k) -> selected sel t = false).
  { intros k Hk t Ht. apply H. right. apply in_flat_map. exists k. split; assumption. }
  clear H E. induction kids as [|k kids IHk]; [reflexivity|].
  inversion IH as [|? ? Hhead Htail]; subst.
  cbn [flat_map]. rewrite Hhead by (apply Hk; left; reflexivity).
  rewrite IHk; [reflexivity | exact Htail |].
  intros k' Hk'. apply Hk. right. exact Hk'.
Qed.

Lemma decompose_all_free (sel : string -> list (string * str) -> bool)
      (s : soup) :
  free_of sel s -> decompose_all sel s = s.
Proof.
  unfold free_of, decompose_all. induction s as [|n s IH]; intros H; [reflexivity|].
  cbn [flat_map]. rewrite decompose_in_free.
  - rewrite IH; [reflexivity|]. intros t Ht. apply H.
    cbn [flat_map]. apply in_or_app. right. exact Ht.
  - intros t Ht. apply H. cbn [flat_map]. apply in_or_app. left. exact Ht.
Qed.

Lemma filter_soup_nodes (item : soup) (t : node) :
  In t (flat_map descendants (filter_soup item)) ->
  selected is_link t = false
  /\ selected in_blacklist t = false
  /\ exists o, In o (flat_map descendants item) /\ same_node t o.
Proof.
  unfold filter_soup. intros Ht.
  apply decompose_all_origin in Ht as [Hl [o [Ho Hsame]]].
  apply decompose_all_origin in Ho as [Hb [o' [Ho' Hsame']]].
  split; [exact Hl|]. split.
  - rewrite (same_node_selected in_blacklist _ _ Hsame). exact Hb.
  - exists o'. split; [exact Ho'|].
    destruct t, o, o'; simpl in *; try tauto; try congruence.
    destruct Hsame as [-> ->]. exact Hsame'.
Qed.

Lemma filter_soup_free (s : soup) :
  free_of in_blacklist s -> free_of is_link s -> filter_soup s = s.
Proof.
  intros Hb Hl. unfold filter_soup.
  rewrite (decompose_all_free Hb). apply decompose_all_free, Hl.
Qed.

(** X1: after the two [decompose] loops no element of the tree has a name
    of the blacklist and no [a] element with an [href] is left, and every
    node that is left was a node of the parsed tree. *)
Theorem filter_soup_invariant (item : soup) :
  free_of in_blacklist (filter_soup item)
  /\ free_of is_link (filter_soup item)
  /\ (forall t, In t (flat_map descendants (filter_soup item)) ->
                exists o, In o (flat_map descendants item) /\ same_node t o).
Proof.
  split; [|split]; intros t Ht; apply filter_soup_nodes in Ht; tauto.
Qed.

(** X2: filtering a filtered tree changes nothing, and a tree without
    blacklisted elements and without links passes the filter unchanged. *)
Theorem filter_soup_idempotent (item : soup) :
  filter_soup (filter_soup item) = filter_soup item
  /\ (free_of in_blacklist item -> free_of is_link item ->
      filter_soup item = item).
Proof.
  split; [|apply filter_soup_free].
  apply filter_soup_free; intros t Ht; apply filter_soup_nodes in Ht; tauto.
Qed.

(** *** prep_text *)

Lemma replace_char (s : str) (c : char) (new : str) :
  replace s [c] new = flat_map (fun x => if (c =? x)%N then new else [x]) s.
Proof.
  assert (Hne : [c] <> []) by discriminate.
  induction s as [|x s IH]; [reflexivity|].
  rewrite replace_cons by exact Hne. cbn [startswith flat_map length skipn].
  rewrite startswith_nil, andb_true_r.
  destruct (c =? x)%N; rewrite IH; reflexivity.
Qed.

Lemma replace_removes (s : str) (c : char) (new : str) :
  ~ In c new -> ~ In c (replace s [c] new).
Proof.
  intros Hnew. rewrite replace_char. intros H.
  apply in_flat_map in H as [x [_ H]].
  destruct (N.eqb_spec c x) as [->|Hne]; [apply Hnew, H|].
  destruct H as [->|[]]. apply Hne. reflexivity.
Qed.

Lemma replace_keeps_absent (s old new : str) (c : char) :
  ~ In c new -> ~ In c s -> ~ In c (replace s old new).
Proof. intros Hnew Hs H. apply replace_chars in H as [H|H]; tauto. Qed.

(** *** Stripped texts *)

Lemma lstrip_suffix (s : str) :
  exists pre, s = pre ++ lstrip s /\ forall c, In c pre -> isspace c = true.
Proof.
  induction s as [|c s [pre [E Hpre]]].
  - exists []. split; [reflexivity | intros c []].
  - cbn [lstrip]. destruct (isspace c) eqn:Ec.
    + exists (c :: pre). split; [simpl; rewrite <- E; reflexivity|].
      intros x [<-|Hx]; [exact Ec | apply Hpre, Hx].
    + exists []. split; [reflexivity | intros x []].
Qed.

Lemma lstrip_head (s : str) : head_not isspace (lstrip s).
Proof.
  induction s as [|c s IH]; [exact I|]. cbn [lstrip].
  destruct (isspace c) eqn:E; [exact IH | exact E].
Qed.

Lemma lstrip_id (s : str) : head_not isspace s -> lstrip s = s.
Proof. destruct s as [|c s]; [reflexivity|]. simpl. intros ->. reflexivity. Qed.

Lemma rstrip_prefix (s : str) :
  exists post, s = rstrip s ++ post /\ forall c, In c post -> isspace c = true.
Proof.
  unfold rstrip. destruct (lstrip_suffix (rev s)) as [pre [E Hpre]].
  exists (rev pre). split.
  - rewrite <- rev_app_distr, <- E, rev_involutive. reflexivity.
  - intros c Hc. apply Hpre. apply in_rev. exact Hc.
Qed.

Lemma head_not_prefix (p : char -> bool) (a b : str) :
  head_not p (a ++ b) -> head_not p a.
Proof. destruct a; [intros _; exact I | exact (fun H => H)]. Qed.

Lemma strip_is_stripped (s : str) : stripped (strip s).
Proof.
  unfold stripped, strip. split.
  - destruct (rstrip_prefix (lstrip s)) as [post [E _]].
    apply head_not_prefix with (b := post). rewrite <- E. apply lstrip_head.
  - unfold rstrip. rewrite rev_involutive. apply lstrip_head.
Qed.

Lemma stripped_strip (s : str) : stripped s -> strip s = s.
Proof.
  intros [H1 H2]. unfold strip, rstrip. rewrite (lstrip_id _ H1).
  rewrite (lstrip_id _ H2). apply rev_involutive.
Qed.

Lemma strip_idempotent (s : str) : strip (strip s) = strip s.
Proof. apply stripped_strip, strip_is_stripped. Qed.

Lemma strip_infix (s : str) :
  exists pre post, s = pre ++ strip s ++ post.
Proof.
  destruct (lstrip_suffix s) as [pre [E _]].
  destruct (rstrip_prefix (lstrip s)) as [post [E' _]].
  exists pre, post. unfold strip. rewrite <- E'. exact E.
Qed.

Lemma prep_text_output_strip (text_in : str) :
  stripped (prep_text text_in) /\ strip (prep_text text_in) = prep_text text_in.
Proof. split; [apply strip_is_stripped | apply strip_idempotent]. Qed.

(** X3: the text that [prep_text] returns has no semicolon, colon, square
    bracket, ampersand or asterisk, whatever the input, and neither of its
    ends is whitespace, so that stripping it again changes nothing. *)
Theorem prep_text_output (text_in : str) :
  (forall c, In c (lit ";:[]&*") -> ~ In c (prep_text text_in))
  /\ stripped (prep_text text_in)
  /\ strip (prep_text text_in) = prep_text text_in.
Proof.
  split; [|apply prep_text_output_strip].
  intros c Hc H. unfold prep_text in H. cbv zeta in H. apply strip_chars in H.
  revert H. simpl in Hc.
  repeat (destruct Hc as [<-|Hc];
          [ repeat first
                   [ apply replace_removes; simpl; intuition discriminate
                   | apply replace_keeps_absent;
                     [simpl; intuition discriminate|] ]
          | ]).
  destruct Hc.
Qed.

(** *** Newlines after prep_text *)

Lemma none_after_app (lead p : char -> bool) (a b : str) :
  forall prev,
    none_after lead p prev (a ++ b) =
    none_after lead p prev a && none_after lead p (last_or prev a) b.
Proof.
  induction a as [|c a IH]; intros prev; [reflexivity|].
  cbn [app none_after]. rewrite IH, last_or_cons, andb_assoc. reflexivity.
Qed.

Lemma none_after_weaken (lead p : char -> bool) (s : str) prev :
  none_after lead p prev s = true -> none_after lead p None s = true.
Proof.
  destruct s as [|c s]; [reflexivity|]. cbn [none_after follows].
  intros H. apply andb_true_iff in H as [_ H]. exact H.
Qed.

Lemma none_after_infix (lead p : char -> bool) (pre s post : str) prev :
  none_after lead p prev (pre ++ s ++ post) = true ->
  none_after lead p None s = true.
Proof.
  rewrite !none_after_app. intros H.
  apply andb_true_iff in H as [_ H]. apply andb_true_iff in H as [H _].
  apply none_after_weaken in H. exact H.
Qed.

Lemma none_after_blocks (p : char -> bool) (f : char -> str) (s : str) :
  (forall x prev, none_after p p prev (f x) = true) ->
  forall prev, none_after p p prev (flat_map f s) = true.
Proof.
  intros Hf. induction s as [|x s IH]; intros prev; [reflexivity|].
  cbn [flat_map]. rewrite none_after_app, Hf, IH. reflexivity.
Qed.

Lemma none_after_map (p : char -> bool) (f : char -> char) (s : str) :
  (forall x, p (f x) = p x) ->
  forall prev,
    none_after p p (option_map f prev) (map f s) = none_after p p prev s.
Proof.
  intros Hf. induction s as [|x s IH]; intros prev; [reflexivity|].
  cbn [map none_after]. rewrite Hf.
  change (Some (f x)) with (option_map f (Some x)). rewrite IH.
  destruct prev as [y|]; cbn [option_map follows]; rewrite ?Hf; reflexivity.
Qed.

(** Where no two characters of the class are side by side, a repetition
    that asks for two finds nothing. *)
Lemma sub_many_no_pair (p : char -> bool) (repl : str -> str) (s : str) :
  forall prev prev',
    none_after p p prev s = true ->
    sub_from (Many 1 p) repl prev' 0 s = s.
Proof.
  induction s as [|c s IH]; intros prev prev' H; [reflexivity|].
  cbn [none_after] in H. apply andb_true_iff in H as [_ H].
  rewrite sub_from_miss; [rewrite (IH (Some c) (Some c) H); reflexivity|].
  cbn [match_at span]. destruct (p c) eqn:E; [|reflexivity].
  destruct s as [|d s]; [reflexivity|]. cbn [none_after follows] in H.
  rewrite E in H. cbn [span]. destruct (p d); [discriminate H | reflexivity].
Qed.

Lemma prep_text_newlines (text_in : str) :
  no_adjacent is_nl (prep_text text_in) = true.
Proof.
  unfold no_adjacent, prep_text. cbv zeta.
  match goal with
  | |- none_after _ _ _ (strip ?t) = true =>
      destruct (strip_infix t) as [pre [post E]];
      apply none_after_infix with (pre := pre) (post := post) (prev := None);
      rewrite <- E
  end.
  rewrite (replace_char _ 42%N (lit " ")).
  match goal with
  | |- none_after _ _ _ (flat_map _ ?t) = true =>
      assert (Ht : none_after is_nl is_nl None t = true)
  end.
  { rewrite replace_char. apply none_after_blocks.
    intros x prev. destruct (N.eqb_spec NL x) as [<-|Hne].
    - cbn [none_after]. rewrite andb_false_r. reflexivity.
    - cbn [none_after]. unfold is_nl at 2.
      destruct (N.eqb_spec x NL) as [->|_]; [congruence|].
      rewrite andb_false_r. reflexivity. }
  match goal with
  | |- none_after _ _ _ (flat_map ?f ?t) = true =>
      replace (flat_map f t)
        with (map (fun x => if (42 =? x)%N then SP else x) t)
  end.
  - change (@None char)
      with (option_map (fun x => if (42 =? x)%N then SP else x) None).
    rewrite none_after_map; [exact Ht|].
    intros x. destruct (N.eqb_spec 42 x) as [<-|_]; reflexivity.
  - clear Ht. match goal with |- map _ ?t = _ => generalize t end.
    intros t. induction t as [|x t IH]; [reflexivity|].
    cbn [map flat_map]. rewrite IH.
    destruct (42 =? x)%N; reflexivity.
Qed.

Lemma collapse_double_prepared {T : TemplateSyntax} (bs text_in out : str) :
  collapse_newlines (lit "double") bs (prep_text text_in) = Ok out ->
  out = prep_text text_in.
Proof.
  unfold collapse_newlines.
  change (str_eqb (lit "double") (lit "single")) with false.
  change (str_eqb (lit "double") (lit "double")) with true. cbv iota.
  intros H. apply re_sub_ok in H as [items [_ ->]].
  destruct (prep_text_output_strip text_in) as [_ E]. rewrite E.
  apply sub_many_no_pair with (prev := None). apply prep_text_newlines.
Qed.

Section Unicode.
Context {T : TemplateSyntax} {U : UnicodeData}.

(** X4: the newlines of a text that comes from [prep_text] never stand side
    by side, each one having got a space in front; so in mode [double] the
    pattern finds nothing, the text passes unchanged, and the chapter text
    is the same whatever the break marker. *)
Theorem double_mode_inserts_no_marker
        (config : GeneralConfig) (raw bs bs' text text' : str) :
  newline_mode config = lit "double" ->
  clean_text config bs raw = Ok text ->
  clean_text config bs' raw = Ok text' ->
  no_adjacent is_nl (prep_text raw) = true
  /\ collapse_newlines (lit "double") bs (prep_text raw) = Ok (prep_text raw)
  /\ text = text'.
Proof.
  intros Hmode H H'. split; [apply prep_text_newlines|].
  unfold clean_text in H, H'. rewrite Hmode in H, H'.
  destruct (collapse_newlines (lit "double") bs (prep_text raw)) as [out|] eqn:E;
    cbn [bind] in H; [|discriminate].
  destruct (collapse_newlines (lit "double") bs' (prep_text raw)) as [out'|] eqn:E';
    cbn [bind] in H'; [|discriminate].
  apply collapse_double_prepared in E, E'. subst out out'.
  split; [reflexivity|]. congruence.
Qed.

(** *** Whitespace of the emitted text *)

Lemma squash_whitespace_chars (s : str) c :
  In c (squash_whitespace s) -> isspace c = true -> c = SP.
Proof.
  unfold squash_whitespace, sub_literal, sub_with. intros H Hc.
  apply sub_many_chars in H; [|intros x []].
  destruct H as [[H|[]]|[_ H]]; [symmetry; exact H | congruence].
Qed.

Lemma despace_fold_chars (sentences : list str) (text : str) c :
  In c (fold_left despace_step sentences text) ->
  In c text \/ isspace c = false.
Proof.
  revert text; induction sentences as [|s rest IH]; intros text H; [left; exact H|].
  cbn [fold_left] in H. apply IH in H as [H|H]; [|right; exact H].
  apply (@despace_step_chars text s c H).
Qed.

Lemma clean_text_whitespace (config : GeneralConfig) (bs raw text : str) c :
  clean_text config bs raw = Ok text ->
  In c text -> isspace c = true -> c = SP.
Proof.
  unfold clean_text.
  destruct (collapse_newlines (newline_mode config) bs (prep_text raw)) as [out|];
    cbn [bind]; [|discriminate].
  intros H. injection H as <-. intros Hc Hsp.
  assert (H1 : In c (if remove_endnotes config
                     then strip_endnotes (squash_whitespace out)
                     else squash_whitespace out)).
  { destruct (startswith (language config) _); [|exact Hc].
    apply despace_fold_chars in Hc as [Hc|Hc]; [exact Hc | congruence]. }
  apply squash_whitespace_chars with (s := out); [|exact Hsp].
  destruct (remove_endnotes config); [|exact H1].
  apply Properties.strip_endnotes_chars in H1. exact H1.
Qed.

(** X5: the only whitespace character in a chapter text that
    [get_chapters] emits is the space: no tab, newline, no-break space or
    other Unicode whitespace of the document gets through. *)
Theorem emitted_whitespace_is_space
        (config : GeneralConfig) (bs : str) (book : list soup)
        (chapters : list (str * str)) :
  get_chapters config bs book = Ok chapters ->
  forall title text c,
    In (title, text) chapters -> In c text -> isspace c = true -> c = SP.
Proof.
  revert chapters. induction book as [|item rest IH]; intros chapters.
  - intros H. injection H as <-. intros title text c [].
  - cbn [get_chapters].
    destruct (chapter_of config bs item) as [[t x]|] eqn:E; cbn [bind]; [|discriminate].
    destruct (get_chapters config bs rest) as [chs|]; cbn [bind]; [|discriminate].
    intros H. injection H as <-. intros title text c [H|H].
    + injection H as <- <-. unfold chapter_of in E.
      destruct (clean_text config bs (soup_text (filter_soup item))) as [y|] eqn:Ey;
        cbn [bind] in E; [|discriminate].
      injection E as _ <-. intros Hc Hsp.
      apply (@clean_text_whitespace config bs _ y c Ey Hc Hsp).
    + apply (IH chs eq_refl title text c H).
Qed.

(** *** Endnote numbers, again *)

Lemma none_after_run (lead p : char -> bool) (r : str) prev :
  (forall c, p c = true -> lead c = false) ->
  (forall c, In c r -> p c = true) -> follows lead prev = false ->
  none_after lead p prev r = true.
Proof.
  intros Hlp. revert prev; induction r as [|c r IH]; intros prev Hr Hprev;
    [reflexivity|].
  cbn [none_after]. rewrite Hprev. cbn [andb negb].
  apply IH; [intros x Hx; apply Hr; right; exact Hx|].
  apply Hlp, Hr. left. reflexivity.
Qed.

Lemma none_after_gap (lead p : char -> bool) (g : str) prev :
  (forall c, In c g -> p c = false) -> none_after lead p prev g = true.
Proof.
  revert prev; induction g as [|c g IH]; intros prev Hg; [reflexivity|].
  cbn [none_after]. rewrite (Hg c) by (left; reflexivity).
  rewrite andb_false_r. cbn [negb andb].
  apply IH. intros x Hx. apply Hg. right. exact Hx.
Qed.

Lemma last_or_nonempty (l : str) (a b : option char) :
  l <> [] -> last_or a l = last_or b l.
Proof. destruct l; [congruence | reflexivity]. Qed.

Lemma drop_runs_none_after (lead p : char -> bool) (pcs : list piece) :
  (forall c, p c = true -> lead c = false) ->
  forall prev oprev,
    maximal_runs p pcs = true ->
    match pcs with Run _ :: _ => oprev = prev | _ => True end ->
    none_after lead p oprev (drop_runs_after lead prev pcs) = true.
Proof.
  intros Hlp. induction pcs as [|[r|g] rest IH]; intros prev oprev H Hhead;
    [reflexivity | |].
  - subst oprev. apply maximal_run_inv in H as (Hne & Hr & Ht & Hrest).
    cbn [drop_runs_after].
    assert (Hnext : match rest with Run _ :: _ => False | _ => True end).
    { destruct rest as [|[r'|g'] rest']; try exact I.
      apply maximal_run_inv in Hrest as (Hne' & Hr' & _).
      destruct r' as [|x r']; [congruence|]. simpl in Ht.
      rewrite Hr' in Ht by (left; reflexivity). discriminate. }
    destruct (follows lead prev) eqn:E.
    + cbn [app]. apply IH; [exact Hrest|].
      destruct rest as [|[r'|g'] rest']; [exact I | destruct Hnext | exact I].
    + rewrite none_after_app, none_after_run by assumption. cbn [andb].
      apply IH; [exact Hrest|].
      destruct rest as [|[r'|g'] rest']; [exact I | destruct Hnext | exact I].
  - apply maximal_gap_inv in H as (Hne & Hg & Ht & Hrest).
    cbn [drop_runs_after].
    rewrite none_after_app, none_after_gap by assumption. cbn [andb].
    apply IH; [exact Hrest|].
    destruct rest as [|[r'|g'] rest']; [exact I | | exact I].
    apply last_or_nonempty, Hne.
Qed.

Lemma sub_behind_fixed (lead p : char -> bool) (s : str) :
  forall prev,
    none_after lead p prev s = true ->
    sub_from (Lookbehind lead (Many 0 p)) (fun _ => []) prev 0 s = s.
Proof.
  induction s as [|c s IH]; intros prev H; [reflexivity|].
  cbn [none_after] in H. apply andb_true_iff in H as [H1 H2].
  rewrite sub_from_miss; [rewrite IH by exact H2; reflexivity|].
  cbn [match_at]. destruct prev as [x|]; [|reflexivity].
  cbn [follows] in H1. destruct (lead x); [|reflexivity].
  cbn [andb] in H1. apply negb_true_iff in H1. cbn [span]. rewrite H1.
  reflexivity.
Qed.

(** X6: in the text that the endnote step returns no decimal digit comes
    right after a character of the look-behind class (so [mp3] becomes
    [mp], and a number after a letter is always lost), and running the step
    again changes nothing. *)
Theorem strip_endnotes_settled (s : str) :
  none_after endnote_lead is_digit None (strip_endnotes s) = true
  /\ strip_endnotes (strip_endnotes s) = strip_endnotes s.
Proof.
  assert (H : none_after endnote_lead is_digit None (strip_endnotes s) = true).
  { rewrite <- (runs_text is_digit s) at 1.
    unfold strip_endnotes, sub_literal, sub_with.
    rewrite sub_behind_runs;
      [| apply Properties.lead_not_digit | apply runs_maximal].
    apply drop_runs_none_after;
      [apply Properties.lead_not_digit | apply runs_maximal |].
    destruct (runs is_digit s) as [|[r|g] rest]; [exact I | reflexivity | exact I]. }
  split; [exact H|].
  unfold strip_endnotes at 1, sub_literal, sub_with. apply sub_behind_fixed, H.
Qed.

(** *** Texts without CJK characters *)

Lemma has_cjk_false (s : str) :
  has_cjk s = false <-> forall c, In c s -> is_cjk c = false.
Proof.
  unfold has_cjk. split.
  - intros H c Hc. destruct (is_cjk c) eqn:E; [|reflexivity].
    assert (existsb is_cjk s = true) by (apply existsb_exists; exists c; tauto).
    congruence.
  - intros H. destruct (existsb is_cjk s) eqn:E; [|reflexivity].
    apply existsb_exists in E as [c [Hc E]]. rewrite (H c Hc) in E. discriminate.
Qed.

Lemma despace_cjk_no_cjk (ends : char -> bool) (text : str) :
  has_cjk text = false -> despace_cjk ends text = text.
Proof.
  intros H. unfold despace_cjk. generalize (split (Class ends) text).
  intros sentences. induction sentences as [|s rest IH]; [reflexivity|].
  cbn [fold_left]. rewrite despace_step_eq.
  destruct (has_cjk s) eqn:E; [|exact IH].
  rewrite replace_absent; [exact IH | apply has_cjk_nonempty, E |].
  apply Properties.has_cjk_absent; assumption.
Qed.

Lemma replace_keeps (P : char -> Prop) (s old new : str) :
  (forall c, In c new -> P c) -> (forall c, In c s -> P c) ->
  forall c, In c (replace s old new) -> P c.
Proof. intros Hnew Hs c H. apply replace_chars in H as [H|H]; auto. Qed.

Lemma prep_text_chars (text_in : str) c :
  In c (prep_text text_in) -> In c text_in \/ (c <? 128)%N = true.
Proof.
  intros H. unfold prep_text in H. cbv zeta in H. apply strip_chars in H.
  revert c H.
  repeat (apply replace_keeps;
          [intros c Hc; right; simpl in Hc;
           repeat (destruct Hc as [<-|Hc]; [reflexivity|]); destruct Hc|]).
  intros c H. left. exact H.
Qed.

Lemma collapse_chars (mode bs raw out : str) c :
  ~ In BACKSLASH bs ->
  collapse_newlines mode bs raw = Ok out ->
  In c out -> In c raw \/ In c bs.
Proof.
  intros Hbs. unfold collapse_newlines.
  destruct (str_eqb mode (lit "single"));
    [|destruct (str_eqb mode (lit "double")); [|discriminate]];
    rewrite re_sub_plain by exact Hbs; intros H; injection H as <-;
    unfold sub_literal, sub_with; intros H;
    apply sub_from_chars in H as [H|H]; [left | right; exact H | left | right; exact H];
    apply strip_chars, H.
Qed.

(** X7: for a document and a break marker without CJK characters the
    language setting has no effect on the chapter text: the Chinese step
    leaves such a text as it is. *)
Theorem language_needs_cjk (config config' : GeneralConfig) (bs raw : str) :
  newline_mode config' = newline_mode config ->
  remove_endnotes config' = remove_endnotes config ->
  ~ In BACKSLASH bs -> has_cjk bs = false -> has_cjk raw = false ->
  clean_text config' bs raw = clean_text config bs raw
  /\ (forall ends text, has_cjk text = false -> despace_cjk ends text = text).
Proof.
  intros Hmode Hend Hbs Hbs_cjk Hraw. split; [|apply despace_cjk_no_cjk].
  unfold clean_text. rewrite Hmode, Hend.
  destruct (collapse_newlines (newline_mode config) bs (prep_text raw))
    as [out|e] eqn:E; cbn [bind]; [|reflexivity].
  set (t := if remove_endnotes config
            then strip_endnotes (squash_whitespace out)
            else squash_whitespace out).
  assert (Ht : has_cjk t = false).
  { apply has_cjk_false. intros c Hc.
    assert (Hsq : In c (squash_whitespace out)).
    { unfold t in Hc. destruct (remove_endnotes config); [|exact Hc].
      apply Properties.strip_endnotes_chars in Hc. exact Hc. }
    unfold squash_whitespace, sub_literal, sub_with in Hsq.
    apply sub_from_chars in Hsq as [Hsq|[<-|[]]]; [|reflexivity].
    apply (@collapse_chars _ bs _ out c Hbs E) in Hsq as [Hsq|Hsq].
    - apply prep_text_chars in Hsq as [Hsq|Hsq].
      + rewrite has_cjk_false in Hraw. apply Hraw, Hsq.
      + unfold is_cjk, in_range. apply N.ltb_lt in Hsq.
        apply andb_false_iff. left. apply N.leb_gt. lia.
    - rewrite has_cjk_false in Hbs_cjk. apply Hbs_cjk, Hsq. }
  rewrite (despace_cjk_no_cjk sentence_end _ Ht).
  destruct (startswith (language config') _), (startswith (language config) _);
    reflexivity.
Qed.

(** *** The loop of get_chapters *)

Lemma get_chapters_app (config : GeneralConfig) (bs : str)
      (book1 book2 : list soup) :
  get_chapters config bs (book1 ++ book2) =
  (chapters1 <- get_chapters config bs book1 ;;
   chapters2 <- get_chapters config bs book2 ;;
   Ok (chapters1 ++ chapters2)).
Proof.
  induction book1 as [|item rest IH]; cbn [app get_chapters bind].
  - destruct (get_chapters config bs book2); reflexivity.
  - destruct (chapter_of config bs item) as [ch|e]; cbn [bind]; [|reflexivity].
    rewrite IH. destruct (get_chapters config bs rest); cbn [bind]; [|reflexivity].
    destruct (get_chapters config bs book2); reflexivity.
Qed.

(** X8: [get_chapters] returns a list exactly when every document item
    gives a pair, and the list then has the pair of each item at the place
    of the item; the chapters of two books put one after the other are the
    chapters of the first followed by those of the second, the first error
    being the one raised. *)
Theorem get_chapters_pairs (config : GeneralConfig) (bs : str)
        (book : list soup) (chapters : list (str * str)) :
  (get_chapters config bs book = Ok chapters <->
   Forall2 (fun item pair => chapter_of config bs item = Ok pair) book chapters)
  /\ (forall book2,
         get_chapters config bs (book ++ book2) =
         (chapters1 <- get_chapters config bs book ;;
          chapters2 <- get_chapters config bs book2 ;;
          Ok (chapters1 ++ chapters2))).
Proof.
  split; [|intros book2; apply get_chapters_app].
  revert chapters. induction book as [|item rest IH]; intros chapters.
  - cbn [get_chapters]. split.
    + intros H. injection H as <-. constructor.
    + intros H. inversion H. reflexivity.
  - cbn [get_chapters]. split.
    + destruct (chapter_of config bs item) as [ch|] eqn:E; cbn [bind]; [|discriminate].
      destruct (get_chapters config bs rest) as [chs|]; cbn [bind]; [|discriminate].
      intros H. injection H as <-. constructor; [exact E|]. apply IH. reflexivity.
    + intros H. inversion H as [|? ch ? chs Hch Hrest]; subst.
      rewrite Hch. cbn [bind]. apply IH in Hrest. rewrite Hrest. reflexivity.
Qed.

(** *** What get_chapters can raise *)

Lemma chapter_of_outcome (config : GeneralConfig) (bs : str) (item : soup) :
  match parse_template bs with
  | Some _ =>
      valid_mode (newline_mode config) ->
      exists pair, chapter_of config bs item = Ok pair
  | None =>
      valid_mode (newline_mode config) ->
      chapter_of config bs item = Raise bad_template
  end
  /\ (~ valid_mode (newline_mode config) ->
      chapter_of config bs item =
      Raise (ValueError (lit "Invalid newline mode: " ++ newline_mode config))).
Proof.
  unfold chapter_of, clean_text, valid_mode. split.
  - unfold collapse_newlines, re_sub, Re.sub.
    destruct (parse_template bs) as [items|]; intros [-> | ->];
      cbn [bind]; try reflexivity; eexists; reflexivity.
  - intros H. rewrite collapse_invalid; [reflexivity | tauto | tauto].
Qed.

Lemma valid_mode_dec (mode : str) : valid_mode mode \/ ~ valid_mode mode.
Proof.
  unfold valid_mode.
  destruct (str_eqb mode (lit "single")) eqn:E1;
    [left; left; apply str_eqb_eq, E1|].
  destruct (str_eqb mode (lit "double")) eqn:E2;
    [left; right; apply str_eqb_eq, E2|].
  right. intros [H|H]; apply str_eqb_eq in H; congruence.
Qed.

(** X9: what [get_chapters] raises is decided by the configuration and the
    break marker alone, never by a document: on a book with at least one
    item it raises the mode error when the mode is not valid, the template
    error when the mode is valid and the break marker is not a valid
    replacement template, and nothing otherwise. *)
Theorem get_chapters_outcome (config : GeneralConfig) (bs : str)
        (item : soup) (rest : list soup) :
  (forall e,
      get_chapters config bs (item :: rest) = Raise e ->
      forall book, book <> [] -> get_chapters config bs book = Raise e)
  /\ (valid_mode (newline_mode config) -> parse_template bs = None ->
      get_chapters config bs (item :: rest) = Raise bad_template)
  /\ (valid_mode (newline_mode config) -> parse_template bs <> None ->
      exists chapters,
        get_chapters config bs (item :: rest) = Ok chapters
        /\ length chapters = S (length rest)).
Proof.
  assert (Hok : valid_mode (newline_mode config) -> parse_template bs <> None ->
                forall book, exists chapters,
                    get_chapters config bs book = Ok chapters
                    /\ length chapters = length book).
  { intros Hmode Hbs. induction book as [|i book [chs [E Hlen]]].
    - exists []. split; reflexivity.
    - destruct (chapter_of_outcome config bs i) as [H _].
      destruct (parse_template bs); [|congruence].
      destruct (H Hmode) as [pair Hp]. cbn [get_chapters].
      rewrite Hp, E. cbn [bind]. eexists. split; [reflexivity|].
      simpl. rewrite Hlen. reflexivity. }
  assert (Hbad : valid_mode (newline_mode config) -> parse_template bs = None ->
                 forall i book, get_chapters config bs (i :: book) = Raise bad_template).
  { intros Hmode Hbs i book. destruct (chapter_of_outcome config bs i) as [H _].
    rewrite Hbs in H. cbn [get_chapters]. rewrite (H Hmode). reflexivity. }
  assert (Hmode_err : ~ valid_mode (newline_mode config) ->
            forall i book, get_chapters config bs (i :: book) =
            Raise (ValueError (lit "Invalid newline mode: " ++ newline_mode config))).
  { intros Hmode i book. destruct (chapter_of_outcome config bs i) as [_ H].
    cbn [get_chapters]. rewrite (H Hmode). reflexivity. }
  split; [|split].
  - intros e H book Hne. destruct book as [|i book]; [congruence|].
    destruct (valid_mode_dec (newline_mode config)) as [Hmode|Hmode].
    + assert (Hcase : (exists items, parse_template bs = Some items)
                      \/ parse_template bs = None)
        by (destruct (parse_template bs) as [items|];
            [left; exists items; reflexivity | right; reflexivity]).
      destruct Hcase as [[items Ebs]|Ebs].
      * assert (Hsome : parse_template bs <> None) by (rewrite Ebs; discriminate).
        destruct (Hok Hmode Hsome (item :: rest)) as [chs [E _]]. congruence.
      * rewrite (Hbad Hmode Ebs) in H |- *. exact H.
    + rewrite (Hmode_err Hmode) in H |- *. exact H.
  - intros Hmode Hbs. apply Hbad; assumption.
  - intros Hmode Hbs. apply (Hok Hmode Hbs (item :: rest)).
Qed.

(** *** Lengths *)

Lemma replace_length (s old new : str) :
  old <> [] -> length new <= length old ->
  length (replace s old new) <= length s.
Proof.
  intros Hne Hlen. revert s.
  apply (@replace_ind old (fun s => length (replace s old new) <= length s) Hne).
  - rewrite replace_nil by exact Hne. reflexivity.
  - intros rest IH. rewrite replace_hit by exact Hne. rewrite !length_app. lia.
  - intros c s E IH. rewrite replace_miss by assumption. simpl. lia.
Qed.

Lemma sub_from_length (r : regex) (repl : str) (s : str) :
  length repl <= 1 ->
  forall prev k,
    length (sub_from r (fun _ => repl) prev k s) + Nat.min k (length s)
    <= length s.
Proof.
  intros Hrepl. induction s as [|c s IH]; intros prev k.
  - destruct k; simpl; lia.
  - cbn [sub_from]. destruct k as [|k].
    + destruct (match_at r prev (c :: s)) as [[|n]|].
      * specialize (IH (Some c) 0). simpl in *. lia.
      * specialize (IH (Some c) n). rewrite length_app. simpl. lia.
      * specialize (IH (Some c) 0). simpl in *. lia.
    + specialize (IH (Some c) k). simpl. lia.
Qed.

Lemma sub_literal_length (r : regex) (repl s : str) :
  length repl <= 1 -> length (sub_literal r repl s) <= length s.
Proof.
  intros H. unfold sub_literal, sub_with.
  pose proof (@sub_from_length r repl s H None 0). simpl in *. lia.
Qed.

Lemma strip_length (s : str) : length (strip s) <= length s.
Proof.
  destruct (strip_infix s) as [pre [post E]]. rewrite E at 2.
  rewrite !length_app. lia.
Qed.

Lemma sanitize_length (title bs : str) :
  bs <> [] -> length (_sanitize_title title bs) <= length title.
Proof.
  intros Hne. unfold _sanitize_title.
  etransitivity; [apply sub_literal_length; simpl; lia|].
  etransitivity; [apply strip_length|].
  etransitivity; [apply sub_literal_length; simpl; lia|].
  apply replace_length; [exact Hne|]. destruct bs; [congruence | simpl; lia].
Qed.

(** X10: with a break marker that is not the empty string the sanitized
    title is never longer than the title it comes from; a title taken from
    the text, for want of a title element, has therefore at most 60
    characters. *)
Theorem sanitized_title_length
        (config : GeneralConfig) (bs : str) (item : soup) :
  bs <> [] ->
  (forall title, length (_sanitize_title title bs) <= length title)
  /\ (forall title text,
         chapter_of config bs item = Ok (title, text) ->
         probe_title title_levels (filter_soup item) = [] ->
         length title <= 60).
Proof.
  intros Hne. split; [intros title; apply sanitize_length, Hne|].
  intros title text. unfold chapter_of.
  destruct (clean_text config bs (soup_text (filter_soup item))) as [x|];
    cbn [bind]; [|discriminate].
  intros H Hprobe. rewrite Hprobe in H. cbv beta iota in H.
  assert (E : title = _sanitize_title (slice_to 60 x) bs) by congruence.
  rewrite E. etransitivity; [apply sanitize_length, Hne|].
  unfold slice_to. apply firstn_le_length.
Qed.

(** *** Documents of whitespace *)


Lemma get_text_descendant :
  forall n e, In e (descendants n) ->
              forall c, In c (get_text e) -> In c (get_text n).
Proof.
  induction n as [s|s|name attrs kids IH] using node_nested_ind;
    intros e He c Hc.
  - destruct He as [<-|[]]. exact Hc.
  - destruct He as [<-|[]]. exact Hc.
  - destruct He as [<-|He]; [exact Hc|].
    apply in_flat_map in He as [k [Hk He]].
    rewrite Forall_forall in IH. cbn [get_text].
    apply in_flat_map. exists k. split; [exact Hk|].
    apply (IH k Hk e He c Hc).
Qed.

Lemma probe_title_chars (levels : list string) (s : soup) c :
  In c (probe_title levels s) -> In c (soup_text s).
Proof.
  induction levels as [|level rest IH]; [intros []|].
  cbn [probe_title]. destruct (find level s) as [e|] eqn:E; [|exact IH].
  intros Hc. unfold find in E. apply find_some in E as [He _].
  apply in_flat_map in He as [n [Hn He]].
  unfold soup_text. apply in_flat_map. exists n. split; [exact Hn|].
  apply (get_text_descendant n e He c Hc).
Qed.

Lemma sanitize_whitespace (title bs : str) :
  (forall c, In c title -> isspace c = true) -> _sanitize_title title bs = [].
Proof.
  intros H. unfold _sanitize_title. rewrite strip_whitespace; [reflexivity|].
  intros c Hc. unfold sub_literal, sub_with in Hc.
  apply sub_from_chars in Hc as [Hc|[]].
  apply replace_chars in Hc as [Hc|[<-|[]]]; [apply H, Hc | reflexivity].
Qed.

(** X11: a document whose text, after filtering, is empty or made of
    whitespace only gives the pair of two empty strings, title element or
    not; so does the document without any markup. *)
Theorem whitespace_document
        (config : GeneralConfig) (bs : str) (item : soup) :
  valid_mode (newline_mode config) ->
  ~ In BACKSLASH bs ->
  (forall c, In c (soup_text (filter_soup item)) -> isspace c = true) ->
  chapter_of config bs item = Ok ([], [])
  /\ chapter_of config bs [] = Ok ([], []).
Proof.
  assert (H : forall it,
             valid_mode (newline_mode config) -> ~ In BACKSLASH bs ->
             (forall c, In c (soup_text (filter_soup it)) -> isspace c = true) ->
             chapter_of config bs it = Ok ([], [])).
  { intros it Hmode Hbs Hws. unfold chapter_of.
    assert (E : clean_text config bs (soup_text (filter_soup it)) = Ok []).
    { transitivity (clean_text config bs []);
        [| apply (@Properties.clean_text_nil_plain T U config bs Hmode Hbs)].
      unfold clean_text. rewrite (@prep_text_whitespace _ Hws). reflexivity. }
    rewrite E. cbn [bind]. do 2 f_equal.
    destruct (probe_title title_levels (filter_soup it)) as [|x t] eqn:Ep.
    - apply Properties.sanitize_nil.
    - apply sanitize_whitespace. intros c Hc. apply Hws.
      apply probe_title_chars with (levels := title_levels). rewrite Ep. exact Hc. }
  intros Hmode Hbs Hws. split; [apply H; assumption|].
  apply H; try assumption. intros c [].
Qed.

(** *** Single spaces *)

Lemma squash_runs_single (pcs : list piece) :
  forall prev,
    maximal_runs isspace pcs = true ->
    match pcs with Run _ :: _ => follows isspace prev = false | _ => True end ->
    none_after isspace isspace prev (replace_runs 0 (lit " ") pcs) = true.
Proof.
  induction pcs as [|[r|g] rest IH]; intros prev H Hhead; [reflexivity | |].
  - apply maximal_run_inv in H as (Hne & Hr & Ht & Hrest).
    cbn [replace_runs flat_map].
    destruct (Nat.ltb_spec 0 (length r)) as [_|Hlen];
      [|destruct r; [congruence | simpl in Hlen; lia]].
    cbn [lit app none_after]. rewrite Hhead. cbn [andb negb].
    apply IH; [exact Hrest|].
    destruct rest as [|[r'|g'] rest']; [exact I | | exact I].
    exfalso. apply maximal_run_inv in Hrest as (Hne' & Hr' & _).
    destruct r' as [|x r']; [congruence|]. simpl in Ht.
    rewrite Hr' in Ht by (left; reflexivity). discriminate.
  - apply maximal_gap_inv in H as (Hne & Hg & Ht & Hrest).
    cbn [replace_runs flat_map].
    rewrite none_after_app, none_after_gap by exact Hg. cbn [andb].
    apply IH; [exact Hrest|].
    destruct rest as [|[r'|g'] rest']; [exact I | | exact I].
    destruct g as [|x g]; [congruence|].
    destruct (last_or_some prev x g) as [d [-> Hd]]. cbn [follows].
    apply Hg, Hd.
Qed.

Lemma squash_no_adjacent (s : str) :
  no_adjacent isspace (squash_whitespace s) = true.
Proof.
  unfold no_adjacent, squash_whitespace, sub_literal.
  rewrite <- (runs_text isspace s).
  rewrite sub_many_runs by apply runs_maximal.
  apply squash_runs_single; [apply runs_maximal|].
  destruct (runs isspace s) as [|[r|g] rest]; [exact I | reflexivity | exact I].
Qed.

(** Deleting what comes after a character that is not in the class [ws]
    brings no two [ws] characters together. *)
Lemma delete_behind_none_after (lead p ws : char -> bool) (s : str) :
  (forall c, lead c = true -> ws c = false) ->
  forall prev oprev k,
    none_after ws ws prev s = true ->
    (k = 0 -> oprev = prev \/ follows ws oprev = false) ->
    (k <> 0 -> follows ws oprev = false) ->
    none_after ws ws oprev
      (sub_from (Lookbehind lead (Many 0 p)) (fun _ => []) prev k s) = true.
Proof.
  intros Hlead. induction s as [|c s IH]; intros prev oprev k H H0 Hk;
    [reflexivity|].
  cbn [none_after] in H. apply andb_true_iff in H as [Hc Hs].
  cbn [sub_from]. destruct k as [|k].
  - destruct (match_at (Lookbehind lead (Many 0 p)) prev (c :: s))
      as [[|n]|] eqn:E.
    + cbn [none_after]. apply andb_true_iff. split.
      * destruct (H0 eq_refl) as [->|Ho]; [exact Hc | rewrite Ho; reflexivity].
      * apply IH; [exact Hs | intros _; left; reflexivity | congruence].
    + cbn [app]. assert (Ho : follows ws oprev = false).
      { cbn [match_at] in E. destruct prev as [x|]; [|discriminate].
        destruct (lead x) eqn:El; [|discriminate].
        destruct (H0 eq_refl) as [->|Ho]; [apply Hlead, El | exact Ho]. }
      apply IH; [exact Hs | intros _; right; exact Ho | intros _; exact Ho].
    + cbn [none_after]. apply andb_true_iff. split.
      * destruct (H0 eq_refl) as [->|Ho]; [exact Hc | rewrite Ho; reflexivity].
      * apply IH; [exact Hs | intros _; left; reflexivity | congruence].
  - assert (Ho : follows ws oprev = false) by (apply Hk; discriminate).
    apply IH; [exact Hs | intros _; right; exact Ho | intros _; exact Ho].
Qed.

Lemma lead_not_space (c : char) : endnote_lead c = true -> isspace c = false.
Proof.
  unfold endnote_lead, is_asciiletter, in_range. cbn [existsb].
  rewrite !orb_true_iff, !andb_true_iff, !N.leb_le, !N.eqb_eq.
  intros H. unfold isspace, in_range.
  repeat rewrite orb_false_iff.
  repeat split;
    try (apply N.eqb_neq; intuition lia);
    apply andb_false_iff;
    first [ left; apply N.leb_gt; intuition lia
          | right; apply N.leb_gt; intuition lia ].
Qed.

Lemma strip_endnotes_no_adjacent (s : str) :
  no_adjacent isspace s = true -> no_adjacent isspace (strip_endnotes s) = true.
Proof.
  unfold no_adjacent, strip_endnotes, sub_literal, sub_with. intros H.
  apply delete_behind_none_after;
    [apply lead_not_space | exact H | intros _; left; reflexivity | congruence].
Qed.

(** Putting a text without [ws] characters in the place of another brings
    no two [ws] characters together either. *)
Lemma replace_none_after (ws : char -> bool) (old new : str) :
  old <> [] -> new <> [] -> (forall c, In c new -> ws c = false) ->
  forall s prev oprev,
    none_after ws ws prev s = true ->
    oprev = prev \/ follows ws oprev = false ->
    none_after ws ws oprev (replace s old new) = true.
Proof.
  intros Hold Hnew Hws.
  apply (@replace_ind old
           (fun s => forall prev oprev,
                none_after ws ws prev s = true ->
                oprev = prev \/ follows ws oprev = false ->
                none_after ws ws oprev (replace s old new) = true) Hold).
  - intros prev oprev _ _. rewrite replace_nil by exact Hold. reflexivity.
  - intros rest IH prev oprev H Ho. rewrite replace_hit by exact Hold.
    rewrite none_after_app in H |- *. apply andb_true_iff in H as [_ H].
    rewrite none_after_gap by exact Hws. cbn [andb].
    apply (IH _ _ H). right.
    destruct new as [|x new]; [congruence|].
    destruct (last_or_some oprev x new) as [d [-> Hd]]. cbn [follows].
    apply Hws, Hd.
  - intros c s E IH prev oprev H Ho. rewrite replace_miss by assumption.
    cbn [none_after] in H |- *. apply andb_true_iff in H as [Hc Hs].
    apply andb_true_iff. split.
    + destruct Ho as [->|Ho]; [exact Hc | rewrite Ho; reflexivity].
    + apply (IH _ _ Hs). left. reflexivity.
Qed.

Lemma cjk_not_space (c : char) : is_cjk c = true -> isspace c = false.
Proof.
  unfold is_cjk, in_range. rewrite andb_true_iff, !N.leb_le. intros H.
  unfold isspace, in_range.
  repeat rewrite orb_false_iff.
  repeat split;
    try (apply N.eqb_neq; lia);
    apply andb_false_iff;
    first [ left; apply N.leb_gt; lia | right; apply N.leb_gt; lia ].
Qed.

Lemma despace_step_no_adjacent (text sentence : str) :
  no_adjacent isspace text = true ->
  no_adjacent isspace (despace_step text sentence) = true.
Proof.
  intros H. rewrite despace_step_eq.
  destruct (has_cjk sentence) eqn:E; [|exact H].
  unfold no_adjacent.
  apply replace_none_after with (prev := None);
    [apply has_cjk_nonempty, E | | apply remove_whitespace_clean | exact H
     | left; reflexivity].
  apply existsb_exists in E as [c [Hc Hcjk]]. intros Hnil.
  assert (Hin : In c (remove_whitespace sentence)).
  { unfold remove_whitespace. apply filter_In. split; [exact Hc|].
    rewrite (cjk_not_space _ Hcjk). reflexivity. }
  rewrite Hnil in Hin. destruct Hin.
Qed.

Lemma clean_text_no_adjacent (config : GeneralConfig) (bs raw text : str) :
  clean_text config bs raw = Ok text -> no_adjacent isspace text = true.
Proof.
  unfold clean_text.
  destruct (collapse_newlines (newline_mode config) bs (prep_text raw)) as [out|];
    cbn [bind]; [|discriminate].
  intros H. injection H as <-.
  assert (H1 : no_adjacent isspace
                 (if remove_endnotes config
                  then strip_endnotes (squash_whitespace out)
                  else squash_whitespace out) = true).
  { destruct (remove_endnotes config); [|apply squash_no_adjacent].
    apply strip_endnotes_no_adjacent, squash_no_adjacent. }
  destruct (startswith (language config) _); [|exact H1].
  unfold despace_cjk. generalize (split (Class sentence_end)
    (if remove_endnotes config
     then strip_endnotes (squash_whitespace out)
     else squash_whitespace out)).
  intros sentences. revert H1.
  generalize (if remove_endnotes config
              then strip_endnotes (squash_whitespace out)
              else squash_whitespace out).
  induction sentences as [|s rest IH]; intros t Ht; [exact Ht|].
  cbn [fold_left]. apply IH, despace_step_no_adjacent, Ht.
Qed.

(** X12: in a chapter text that [get_chapters] emits no two whitespace
    characters stand side by side: with the spaces being the only
    whitespace, the words of the text are separated by single spaces. *)
Theorem emitted_spaces_are_single
        (config : GeneralConfig) (bs : str) (book : list soup)
        (chapters : list (str * str)) :
  get_chapters config bs book = Ok chapters ->
  forall title text,
    In (title, text) chapters -> no_adjacent isspace text = true.
Proof.
  revert chapters. induction book as [|item rest IH]; intros chapters.
  - intros H. injection H as <-. intros title text [].
  - cbn [get_chapters].
    destruct (chapter_of config bs item) as [[t x]|] eqn:E; cbn [bind]; [|discriminate].
    destruct (get_chapters config bs rest) as [chs|]; cbn [bind]; [|discriminate].
    intros H. injection H as <-. intros title text [H|H].
    + injection H as <- <-. unfold chapter_of in E.
      destruct (clean_text config bs (soup_text (filter_soup item))) as [y|] eqn:Ey;
        cbn [bind] in E; [|discriminate].
      injection E as _ <-. apply (@clean_text_no_adjacent config bs _ y Ey).
    + apply (IH chs eq_refl title text H).
Qed.

(** *** The sanitized title as joined words *)

Lemma lstrip_app (u v : str) :
  lstrip (u ++ v) = match lstrip u with [] => lstrip v | _ => lstrip u ++ v end.
Proof.
  induction u as [|c u IH]; [reflexivity|].
  cbn [app lstrip]. destruct (isspace c); [exact IH | reflexivity].
Qed.

Lemma rstrip_app (a b : str) :
  rstrip (a ++ b) = match rstrip b with [] => rstrip a | _ => a ++ rstrip b end.
Proof.
  unfold rstrip. rewrite rev_app_distr, lstrip_app.
  destruct (lstrip (rev b)) as [|x l] eqn:E; [reflexivity|].
  rewrite rev_app_distr, rev_involutive.
  destruct (rev (x :: l)) eqn:E'; [|reflexivity].
  apply (f_equal (@rev char)) in E'. rewrite rev_involutive in E'. discriminate.
Qed.

Lemma rstrip_whitespace (r : str) :
  (forall c, In c r -> isspace c = true) -> rstrip r = [].
Proof.
  intros H. unfold rstrip. rewrite lstrip_whitespace; [reflexivity|].
  intros c Hc. apply H. apply in_rev. exact Hc.
Qed.

Lemma rstrip_gap (g : str) :
  (forall c, In c g -> isspace c = false) -> rstrip g = g.
Proof.
  intros H. unfold rstrip. rewrite lstrip_no_space; [apply rev_involutive|].
  intros c Hc. apply H. apply in_rev. exact Hc.
Qed.

Lemma lstrip_cut (pcs : list piece) :
  maximal_runs isspace pcs = true ->
  lstrip (text_of pcs) = text_of (ltrim pcs)
  /\ maximal_runs isspace (ltrim pcs) = true.
Proof.
  destruct pcs as [|[r|g] rest]; intros H; [split; [reflexivity | exact H] | |].
  - apply maximal_run_inv in H as (Hne & Hr & Ht & Hrest).
    cbn [ltrim text_of flat_map piece_text]. split; [|exact Hrest].
    rewrite lstrip_app, lstrip_whitespace by exact Hr.
    apply lstrip_id, Ht.
  - split; [|exact H]. apply maximal_gap_inv in H as (Hne & Hg & _).
    cbn [ltrim]. apply lstrip_id. cbn [text_of flat_map piece_text].
    destruct g as [|x g]; [congruence|]. cbn [app head_not].
    apply Hg. left. reflexivity.
Qed.

Lemma rstrip_cut (pcs : list piece) :
  maximal_runs isspace pcs = true ->
  rstrip (text_of pcs) = text_of (rtrim pcs)
  /\ maximal_runs isspace (rtrim pcs) = true.
Proof.
  induction pcs as [|pc rest IH]; intros H; [split; reflexivity|].
  assert (Hrest : maximal_runs isspace rest = true).
  { unfold maximal_runs in *. apply andb_true_iff in H as [H1 H2].
    cbn [forallb alternate] in H1, H2.
    apply andb_true_iff in H1 as [_ H1]. apply andb_true_iff in H2 as [_ H2].
    rewrite H1, H2. reflexivity. }
  destruct (IH Hrest) as [IHt IHm].
  change (text_of (pc :: rest)) with (piece_text pc ++ text_of rest).
  rewrite rstrip_app, IHt.
  destruct pc as [r|g].
  - apply maximal_run_inv in H as (Hne & Hr & Ht & _).
    destruct rest as [|pc' rest'].
    + cbn [rtrim text_of flat_map piece_text].
      split; [apply rstrip_whitespace, Hr | reflexivity].
    + destruct pc' as [r'|g'].
      { exfalso. apply maximal_run_inv in Hrest as (Hne' & Hr' & _).
        destruct r' as [|x r']; [congruence|]. simpl in Ht.
        rewrite Hr' in Ht by (left; reflexivity). discriminate. }
      change (rtrim (Run r :: Gap g' :: rest'))
        with (Run r :: rtrim (Gap g' :: rest')).
      apply maximal_gap_inv in Hrest as (Hne' & Hg' & _).
      assert (Hhd : exists x t, text_of (rtrim (Gap g' :: rest')) = x :: t
                                /\ isspace x = false).
      { destruct g' as [|x g']; [congruence|].
        cbn [rtrim]. destruct rest'; cbn [text_of flat_map piece_text app];
          eexists; eexists; (split; [reflexivity | apply Hg'; left; reflexivity]). }
      destruct Hhd as [x [t [Ex Hx]]]. rewrite Ex. split.
      * cbn [text_of flat_map piece_text]. fold (text_of (rtrim (Gap g' :: rest'))).
        rewrite Ex. reflexivity.
      * unfold maximal_runs in *. cbn [forallb alternate].
        apply andb_true_iff in IHm as [M1 M2]. rewrite M1, M2.
        cbn [piece_ok]. destruct r as [|y r]; [congruence|].
        assert (forallb isspace (y :: r) = true)
          by (apply forallb_forall; exact Hr).
        rewrite H. cbn [nonempty andb].
        cbn [rtrim]. destruct rest'; reflexivity.
  - apply maximal_gap_inv in H as (Hne & Hg & Ht & _).
    destruct rest as [|pc' rest'].
    + cbn [rtrim text_of flat_map piece_text]. rewrite app_nil_r.
      split; [apply rstrip_gap, Hg|].
      unfold maximal_runs. cbn [forallb alternate piece_ok].
      destruct g as [|y g]; [congruence|].
      assert (forallb (fun c => negb (isspace c)) (y :: g) = true).
      { apply forallb_forall. intros c Hc. rewrite (Hg c Hc). reflexivity. }
      rewrite H. reflexivity.
    + assert (Hcons : rtrim (Gap g :: pc' :: rest') = Gap g :: rtrim (pc' :: rest'))
        by reflexivity.
      rewrite Hcons.
      destruct (text_of (rtrim (pc' :: rest'))) as [|x t] eqn:Ex.
      * split.
        { cbn [text_of flat_map piece_text]. fold (text_of (rtrim (pc' :: rest'))).
          rewrite Ex, app_nil_r. apply rstrip_gap, Hg. }
        { destruct (rtrim (pc' :: rest')) as [|q qs] eqn:Eq.
          - unfold maximal_runs. cbn [forallb alternate piece_ok].
            destruct g as [|y g]; [congruence|].
            assert (forallb (fun c => negb (isspace c)) (y :: g) = true).
            { apply forallb_forall. intros c Hc. rewrite (Hg c Hc). reflexivity. }
            rewrite H. reflexivity.
          - exfalso. unfold maximal_runs in IHm.
            apply andb_true_iff in IHm as [M1 _]. cbn [forallb] in M1.
            apply andb_true_iff in M1 as [M1 _].
            cbn [text_of flat_map] in Ex. apply app_eq_nil in Ex as [Ex _].
            destruct q as [r|g0]; cbn [piece_text] in Ex; subst;
              cbn [piece_ok nonempty andb] in M1; discriminate. }
      * split.
        { cbn [text_of flat_map piece_text]. fold (text_of (rtrim (pc' :: rest'))).
          rewrite Ex. reflexivity. }
        { unfold maximal_runs in *. cbn [forallb alternate].
          apply andb_true_iff in IHm as [M1 M2]. rewrite M1, M2.
          cbn [piece_ok]. destruct g as [|y g]; [congruence|].
          assert (forallb (fun c => negb (isspace c)) (y :: g) = true).
          { apply forallb_forall. intros c Hc. rewrite (Hg c Hc). reflexivity. }
          rewrite H. cbn [nonempty andb].
          destruct pc' as [r'|g'].
          - destruct rest' as [|q rest'']; [discriminate Ex|].
            cbn [rtrim is_run]. reflexivity.
          - exfalso. apply maximal_gap_inv in Hrest as (Hne' & Hg' & _).
            destruct g' as [|z g']; [congruence|]. simpl in Ht.
            rewrite Hg' in Ht by (left; reflexivity). discriminate. }
Qed.

Lemma maximal_tail (p : char -> bool) (pc : piece) (rest : list piece) :
  maximal_runs p (pc :: rest) = true -> maximal_runs p rest = true.
Proof.
  unfold maximal_runs. intros H. apply andb_true_iff in H as [H1 H2].
  cbn [forallb alternate] in H1, H2.
  apply andb_true_iff in H1 as [_ H1]. apply andb_true_iff in H2 as [_ H2].
  rewrite H1, H2. reflexivity.
Qed.

Lemma replace_runs_trimmed (sep : str) (n : nat) :
  forall q,
    length q <= n ->
    maximal_runs isspace q = true ->
    match q with Run _ :: _ => False | _ => True end ->
    replace_runs 0 sep (rtrim q) = join sep (gaps q).
Proof.
  induction n as [|n IH]; intros q Hlen Hq Hhead.
  - destruct q; [reflexivity | simpl in Hlen; lia].
  - destruct q as [|[r|g] rest]; [reflexivity | destruct Hhead |].
    destruct rest as [|[r|g'] rest].
    + cbn [rtrim replace_runs flat_map gaps join]. apply app_nil_r.
    + destruct rest as [|pc rest].
      * cbn [rtrim replace_runs flat_map gaps join app]. apply app_nil_r.
      * pose proof (@maximal_tail _ _ _ Hq) as Hq1.
        pose proof (@maximal_tail _ _ _ Hq1) as Hq2.
        apply maximal_run_inv in Hq1 as (Hne & Hr & Ht & _).
        destruct pc as [r'|g2].
        { exfalso. apply maximal_run_inv in Hq2 as (Hne' & Hr' & _).
          destruct r' as [|x r']; [congruence|]. simpl in Ht.
          rewrite Hr' in Ht by (left; reflexivity). discriminate. }
        change (rtrim (Gap g :: Run r :: Gap g2 :: rest))
          with (Gap g :: Run r :: rtrim (Gap g2 :: rest)).
        cbn [replace_runs flat_map]. fold (replace_runs 0 sep (rtrim (Gap g2 :: rest))).
        rewrite IH; [| simpl in Hlen |- *; lia | exact Hq2 | exact I].
        destruct (Nat.ltb_spec 0 (length r)) as [_|Hl];
          [|destruct r; [congruence | simpl in Hl; lia]].
        cbn [gaps flat_map app join]. reflexivity.
    + exfalso. unfold maximal_runs in Hq. apply andb_true_iff in Hq as [_ Hq].
      cbn [alternate is_run Bool.eqb negb andb] in Hq. discriminate.
Qed.

Lemma gaps_ltrim (pcs : list piece) : gaps (ltrim pcs) = gaps pcs.
Proof. destruct pcs as [|[r|g] rest]; reflexivity. Qed.

(** X14: the sanitized title is the words of the title, once the break
    marker has become a space and the characters that are neither word
    characters nor whitespace are gone, joined by single underscores: it is
    what [split] and [join] would give. *)
Theorem sanitize_title_joins_words (title bs : str) :
  _sanitize_title title bs =
  join (lit "_")
       (words (filter (fun c => is_word c || isspace c)
                      (replace title bs (lit " ")))).
Proof.
  unfold _sanitize_title. rewrite Properties.delete_not_word_or_space.
  set (x := filter _ _). unfold words.
  pose proof (runs_maximal isspace x) as Hm.
  rewrite <- (runs_text isspace x) at 1.
  destruct (lstrip_cut _ Hm) as [El Hl].
  destruct (rstrip_cut _ Hl) as [Er Hr].
  unfold strip. rewrite El, Er. unfold sub_literal.
  rewrite sub_many_runs by exact Hr.
  rewrite <- (gaps_ltrim (runs isspace x)).
  apply replace_runs_trimmed with (n := length (ltrim (runs isspace x)));
    [reflexivity | exact Hl |].
  destruct (runs isspace x) as [|[r|g] rest] eqn:E; [exact I | | exact I].
  cbn [ltrim]. destruct rest as [|[r'|g'] rest']; [exact I | | exact I].
  apply maximal_run_inv in Hm as (_ & _ & Ht & Hm').
  apply maximal_run_inv in Hm' as (Hne' & Hr' & _).
  destruct r' as [|y r']; [congruence|]. simpl in Ht.
  rewrite Hr' in Ht by (left; reflexivity). discriminate.
Qed.

End Unicode.

(** *** validate_config *)

Lemma endswith_iff (s suffix : str) :
  endswith s suffix = true <-> exists stem, s = stem ++ suffix.
Proof.
  unfold endswith. rewrite startswith_iff. split.
  - intros [r E]. exists (rev r).
    rewrite <- (rev_involutive s), E, rev_app_distr, rev_involutive. reflexivity.
  - intros [stem ->]. exists (rev stem). apply rev_app_distr.
Qed.

(** X13: [validate_config] accepts exactly the input files whose name ends
    in [.epub], written so; without an input file it raises the error
    [Input file cannot be empty], and for any other name the error that
    gives the name back. *)
Theorem validate_config_accepts (input_file : option str) :
  (validate_config input_file = Ok tt <->
   exists stem, input_file = Some (stem ++ lit ".epub"))
  /\ (input_file = None ->
      validate_config input_file =
      Raise (ValueError (lit "Epub Parser: Input file cannot be empty")))
  /\ (forall path,
         input_file = Some path ->
         (forall stem, path <> stem ++ lit ".epub") ->
         validate_config input_file =
         Raise (ValueError
                  (lit "Epub Parser: Unsupported file format: " ++ path))).
Proof.
  split; [|split].
  - destruct input_file as [path|]; cbn [validate_config].
    + destruct (endswith path (lit ".epub")) eqn:E; cbn [negb].
      * split; [|reflexivity]. intros _.
        apply endswith_iff in E as [stem ->]. exists stem. reflexivity.
      * split; [discriminate|]. intros [stem H].
        assert (Hpath : path = stem ++ lit ".epub") by congruence.
        assert (Hend : endswith path (lit ".epub") = true)
          by (apply endswith_iff; exists stem; exact Hpath).
        rewrite Hend in E. discriminate E.
    + split; [discriminate | intros [stem H]; discriminate].
  - intros ->. reflexivity.
  - intros path -> Hno. cbn [validate_config].
    destruct (endswith path (lit ".epub")) eqn:E; [|reflexivity].
    apply endswith_iff in E as [stem ->]. exfalso. apply (Hno stem). reflexivity.
Qed.

(** *** The properties at sample inputs *)

Lemma double_mode_inserts_no_marker_witness :
  collapse_newlines (T := zero_only) (lit "double") BRK (prep_text [97; NL; NL; 98]%N) =
  Ok (prep_text [97; NL; NL; 98]%N)
  /\ prep_text [97; NL; NL; 98]%N = [97; SP; NL; SP; NL; 98]%N.
Proof.
  split; [|reflexivity].
  eapply (@double_mode_inserts_no_marker zero_only plain config_zh
            [97; NL; NL; 98]%N BRK (lit "#"));
    [reflexivity | vm_compute; reflexivity | vm_compute; reflexivity].
Defined.

Lemma emitted_whitespace_is_space_witness :
  Forall (fun c => isspace c = true -> c = SP)
         (lit "Chapter One" ++ chapter_one_text).
Proof.
  apply Forall_forall. intros c Hc Hsp.
  apply (@emitted_whitespace_is_space zero_only plain config_en BRK [chapter_one_body]
           [(lit "Chapter_One", lit "Chapter One" ++ chapter_one_text)]
           eq_refl (lit "Chapter_One") (lit "Chapter One" ++ chapter_one_text) c);
    [left; reflexivity | exact Hc | exact Hsp].
Defined.

Lemma language_needs_cjk_witness :
  clean_text (T := zero_only) (U := plain) config_zh BRK (lit "a b 12") =
  clean_text (T := zero_only) (U := plain)
    {| newline_mode := lit "double"; remove_endnotes := true;
       language := lit "en" |} BRK (lit "a b 12").
Proof.
  apply (@language_needs_cjk zero_only plain); try reflexivity. no_backslash.
Defined.

Lemma sanitized_title_length_witness :
  length (_sanitize_title (U := plain) (lit " Hello,  World! ") BRK)
  <= length (lit " Hello,  World! ").
Proof.
  apply (@sanitized_title_length zero_only plain config_en BRK []). discriminate.
Defined.

Lemma whitespace_document_witness :
  chapter_of (T := zero_only) (U := plain) config_en BRK
             [Tag "p" [] [NavigableString [SP; NL; 9%N]]] = Ok ([], []).
Proof.
  apply (@whitespace_document zero_only plain config_en BRK
           [Tag "p" [] [NavigableString [SP; NL; 9%N]]]).
  - left. reflexivity.
  - no_backslash.
  - intros c Hc. simpl in Hc.
    repeat (destruct Hc as [<-|Hc]; [reflexivity|]). destruct Hc.
Defined.

Lemma emitted_spaces_are_single_witness :
  no_adjacent isspace (lit "Chapter One" ++ chapter_one_text) = true.
Proof.
  apply (@emitted_spaces_are_single zero_only plain config_en BRK [chapter_one_body]
           [(lit "Chapter_One", lit "Chapter One" ++ chapter_one_text)]
           eq_refl (lit "Chapter_One") (lit "Chapter One" ++ chapter_one_text)).
  left. reflexivity.
Defined.

Lemma get_chapters_outcome_witness :
  get_chapters (T := zero_only) (U := plain) config_en (lit "brk\") [chapter_one_body; []] =
  Raise bad_template.
Proof.
  apply (@get_chapters_outcome zero_only plain config_en (lit "brk\") chapter_one_body [[]]);
    [left; reflexivity | reflexivity].
Defined.

End Behaviour.
